(** * tsh: job control of a tiny shell

    A shallow embedding of the job-control core of [tsh.c]: the job list
    and its helper routines, the three signal handlers, [waitfg] and the
    [bg]/[fg] built-in, followed by the properties of the job-control
    specification that were checked against them.

    Conventions of the embedding.
    - [int] and [pid_t] values are [Z].  The arithmetic of the modelled
      code is [+1], [-1] and unary minus.  A job id grows by at most one
      for each call of [addjob] or [deletejob] ([run_handles_bounded]), so
      [int] overflow is out of reach of any run of fewer than [2^31 - 1]
      such calls; it is not modelled, and no wrap-around is written.
    - The global array [jobs[MAXJOBS]] is the list of its slots, slot 0
      first.  A loop [for (i = 0; i < MAXJOBS; i++)] is a traversal of that
      list.  A pointer [&jobs[i]] is the index [i].
    - A [char] buffer holding a C string is a [string] (the bytes before the
      terminating NUL).
    - [printf] and [kill] are recorded as events, in program order.  The
      values returned by the operating system ([kill], [waitpid],
      [strerror]) are arguments of the handlers.
    - An array access outside [jobs[0 .. MAXJOBS-1]] and a dereferenced
      [NULL] have no defined behaviour in C; the embedding stops there with
      the outcome [Undefined]. *)

From Stdlib Require Import ZArith String Ascii List Lia.
From stdpp Require Import base tactics option list numbers strings pretty.

Local Open Scope string_scope.
Local Open Scope list_scope.
Local Open Scope Z_scope.

(** ** Constants *)

Definition MAXJOBS : Z := 16.

Definition UNDEF : Z := 0.
Definition FG : Z := 1.
Definition BG : Z := 2.
Definition ST : Z := 3.

(** Signal numbers of [<signal.h>] (Linux, x86 and ARM). *)
Definition SIGINT : Z := 2.
Definition SIGCONT : Z := 18.
Definition SIGTSTP : Z := 20.

(** ** Data *)

Record job_t : Type := Job {
  pid : Z;
  jid : Z;
  state : Z;
  cmdline : string
}.

(** The global variables of the shell that job control reads and writes. *)
Record shell : Type := Shell {
  jobs : list job_t;
  nextjid : Z;
  verbose : Z;
  check_fg : Z
}.

Definition set_jobs (st : shell) (js : list job_t) : shell :=
  Shell js (nextjid st) (verbose st) (check_fg st).
Definition set_check_fg (st : shell) (c : Z) : shell :=
  Shell (jobs st) (nextjid st) (verbose st) c.

Definition set_state (j : job_t) (s : Z) : job_t :=
  Job (pid j) (jid j) s (cmdline j).

Inductive event : Type :=
| Printf (text : string)
| Kill (target : Z) (sig : Z).

Definition nl : string := String "010" "".

(** [printf("%d", n)] *)
Definition fmt_d (n : Z) : string := pretty n.

(** ** Helper routines that manipulate the job list *)

Definition clearjob (job : job_t) : job_t :=
  Job 0 0 UNDEF "".

Definition initjobs (js : list job_t) : list job_t :=
  map clearjob js.

(** The array as the loader leaves it (static storage is zeroed), and the
    state of the shell when [main] enters its read/eval loop. *)
Definition zeroed_jobs : list job_t :=
  replicate (Z.to_nat MAXJOBS) (Job 0 0 0 "").

Definition initial_shell : shell :=
  Shell (initjobs zeroed_jobs) 1 0 0.

Fixpoint maxjid_from (js : list job_t) (max : Z) : Z :=
  match js with
  | [] => max
  | j :: rest => maxjid_from rest (if jid j >? max then jid j else max)
  end.

Definition maxjid (js : list job_t) : Z := maxjid_from js 0.

(** The loop shared by the routines below:
    [for (i = 0; i < MAXJOBS; i++) if (test(jobs[i])) ... jobs[i] ...]
    started at slot [i] with the slots [js] still to visit; the result is
    the slot at which the loop body fires, with its content. *)
Fixpoint first_slot (test : job_t -> bool) (js : list job_t) (i : nat)
  : option (nat * job_t) :=
  match js with
  | [] => None
  | j :: rest => if test j then Some (i, j) else first_slot test rest (S i)
  end.

Definition addjob (st : shell) (p s : Z) (cmd : string)
  : list event * (Z * shell) :=
  if p <? 1 then ([], (0, st))
  else
    match first_slot (fun j => pid j =? 0) (jobs st) 0 with
    | Some (i, _) =>
        let job := Job p (nextjid st) s cmd in
        let n := nextjid st + 1 in
        let n := if n >? MAXJOBS then 1 else n in
        let out :=
          if verbose st =? 0 then []
          else [Printf ("Added job [" +:+ fmt_d (jid job) +:+ "] "
                        +:+ fmt_d (pid job) +:+ " " +:+ cmdline job
                        +:+ nl)] in
        (out, (1, Shell (<[i := job]> (jobs st)) n (verbose st) (check_fg st)))
    | None =>
        ([Printf ("Tried to create too many jobs" +:+ nl)],
         (0, st))
    end.

Definition deletejob (st : shell) (p : Z) : Z * shell :=
  if p <? 1 then (0, st)
  else
    match first_slot (fun j => pid j =? p) (jobs st) 0 with
    | Some (i, _) =>
        let js := alter clearjob i (jobs st) in
        (1, Shell js (maxjid js + 1) (verbose st) (check_fg st))
    | None => (0, st)
    end.

Definition fgpid (js : list job_t) : Z :=
  match first_slot (fun j => state j =? FG) js 0 with
  | Some (_, j) => pid j
  | None => 0
  end.

(** [getjobpid] and [getjobjid] return [&jobs[i]] or [NULL]. *)
Definition getjobpid (js : list job_t) (p : Z) : option nat :=
  if p <? 1 then None
  else fst <$> first_slot (fun j => pid j =? p) js 0.

Definition getjobjid (js : list job_t) (n : Z) : option nat :=
  if n <? 1 then None
  else fst <$> first_slot (fun j => jid j =? n) js 0.

Definition pid2jid (st : shell) (p : Z) : Z :=
  if p <? 1 then 0
  else
    match first_slot (fun j => pid j =? p) (jobs st) 0 with
    | Some (_, j) => jid j
    | None => 0
    end.

(** ** Outcomes, and the monad of the shell's procedures *)

Inductive outcome (A : Type) : Type :=
| Returns (a : A) (st : shell)   (* the procedure returns [a] *)
| Exits (code : Z)               (* [exit(code)]: the shell is gone *)
| Undefined                      (* an access outside [jobs], or through NULL *)
| Suspended.                     (* still inside [pause()] *)
Arguments Returns {A} a st.
Arguments Exits {A} code.
Arguments Undefined {A}.
Arguments Suspended {A}.

Definition proc (A : Type) : Type := shell -> list event * outcome A.

Definition proc_bind {A B} (f : A -> proc B) (m : proc A) : proc B :=
  fun st =>
    match m st with
    | (tr, Returns a st') =>
        let (tr', o) := f a st' in (tr ++ tr', o)
    | (tr, Exits c) => (tr, Exits c)
    | (tr, Undefined) => (tr, Undefined)
    | (tr, Suspended) => (tr, Suspended)
    end.

#[export] Instance proc_ret : MRet proc :=
  fun A a st => ([], Returns a st).
#[export] Instance proc_mbind : MBind proc :=
  fun A B f m => proc_bind f m.

Definition get : proc shell := fun st => ([], Returns st st).
Definition put (st : shell) : proc unit := fun _ => ([], Returns tt st).
Definition emit (e : event) : proc unit := fun st => ([e], Returns tt st).
Definition exit {A} (code : Z) : proc A := fun _ => ([], Exits code).
Definition undefined {A} : proc A := fun _ => ([], Undefined).
Definition suspended {A} : proc A := fun _ => ([], Suspended).

Definition printf (text : string) : proc unit := emit (Printf text).

(** The call [kill(target, sig)]; what it returns is an argument of the
    procedure that looks at it. *)
Definition kill (target sig : Z) : proc unit := emit (Kill target sig).

(** [jobs[i]] as an rvalue and [jobs[i].state = s], for an [int] index. *)
Definition in_bounds (i : Z) : bool := (0 <=? i) && (i <? MAXJOBS).

Definition read_job (i : Z) : proc job_t :=
  st ← get;
  if in_bounds i then
    match jobs st !! Z.to_nat i with
    | Some j => mret j
    | None => undefined
    end
  else undefined.

Definition write_state (i : Z) (s : Z) : proc unit :=
  st ← get;
  if in_bounds i && bool_decide (Z.to_nat i < length (jobs st))%nat then
    put (set_jobs st (alter (fun j => set_state j s) (Z.to_nat i) (jobs st)))
  else undefined.

(** [unix_error(msg)]; [err] is [strerror(errno)]. *)
Definition unix_error {A} (msg err : string) : proc A :=
  _ ← printf (msg +:+ ": " +:+ err +:+ nl); exit 1.

Definition modify (f : shell -> shell) : proc unit :=
  st ← get; put (f st).

(** ** Signal handlers *)

(** What [waitpid] stores in [status], as the macros [WIFEXITED],
    [WIFSIGNALED] (with [WTERMSIG]) and [WIFSTOPPED] of [<sys/wait.h>]
    classify it.  With the options [WNOHANG|WUNTRACED] these are the only
    three kinds. *)
Inductive wstatus : Type :=
| WEXITED (code : Z)
| WSIGNALED (termsig : Z)
| WSTOPPED (stopsig : Z).

(** The body of the [while] loop of [sigchld_handler], for one child
    [p] that [waitpid] has returned. *)
Definition sigchld_body (p : Z) (status : wstatus) : proc unit :=
  st ← get;
  let jid := pid2jid st p in
  j ← read_job (jid - 1);
  (if state j =? FG then modify (fun st => set_check_fg st 1) else mret tt);;
  match status with
  | WEXITED _ =>
      modify (fun st => snd (deletejob st p))
  | WSIGNALED termsig =>
      if termsig =? SIGINT then
        modify (fun st => snd (deletejob st p));;
        printf ("job [" +:+ fmt_d jid +:+ "] (" +:+ fmt_d p
                +:+ ") terminated by signal " +:+ fmt_d SIGINT +:+ nl)
      else mret tt
  | WSTOPPED _ =>
      st ← get;
      match getjobpid (jobs st) p with
      | Some i => write_state (Z.of_nat i) ST
      | None => undefined
      end;;
      printf ("job [" +:+ fmt_d jid +:+ "] (" +:+ fmt_d p
              +:+ ") stopped by signal " +:+ fmt_d SIGTSTP +:+ nl)
  end.

(** [while((pid = waitpid(-1,&status,WNOHANG|WUNTRACED)) > 0) { ... }]:
    [reaped] lists what the successive calls of [waitpid] return; past its
    end [waitpid] returns 0 or -1. *)
Fixpoint sigchld_loop (reaped : list (Z * wstatus)) : proc unit :=
  match reaped with
  | [] => mret tt
  | (p, status) :: rest =>
      if p >? 0 then sigchld_body p status;; sigchld_loop rest
      else mret tt
  end.

Definition sigchld_handler (reaped : list (Z * wstatus)) : proc unit :=
  modify (fun st => set_check_fg st 0);;
  sigchld_loop reaped.

(** [ret] is the value of [kill], [err] is [strerror(errno)] after it. *)
Definition sigint_handler (ret : Z) (err : string) : proc unit :=
  st ← get;
  let p := fgpid (jobs st) in
  kill (- p) SIGINT;;
  if ret <? 0 then unix_error ("kill error" +:+ nl) err
  else mret tt.

Definition sigtstp_handler (ret : Z) (err : string) : proc unit :=
  st ← get;
  let p := fgpid (jobs st) in
  kill (- p) SIGTSTP;;
  (if ret <? 0 then unix_error ("kill error" +:+ nl) err else mret tt);;
  st ← get;
  write_state (pid2jid st p - 1) ST.

Definition sigquit_handler : proc unit :=
  printf ("Terminating after receipt of SIGQUIT signal" +:+ nl);;
  exit 1.

(** ** waitfg *)

(** A signal caught by the shell, with what the system calls of its
    handler will return. *)
Inductive delivery : Type :=
| CaughtCHLD (reaped : list (Z * wstatus))
| CaughtINT (ret : Z) (err : string)
| CaughtTSTP (ret : Z) (err : string)
| CaughtQUIT.

Definition handle (d : delivery) : proc unit :=
  match d with
  | CaughtCHLD reaped => sigchld_handler reaped
  | CaughtINT ret err => sigint_handler ret err
  | CaughtTSTP ret err => sigtstp_handler ret err
  | CaughtQUIT => sigquit_handler
  end.

(** [pause()] returns once a signal has been caught and its handler has
    returned.  [pending] lists the signals that will be delivered, first
    one first; the result is what is left of it.  With nothing left to be
    delivered the shell stays in [pause()]. *)
Definition pause (pending : list delivery) : proc (list delivery) :=
  match pending with
  | [] => suspended
  | d :: rest => handle d;; mret rest
  end.

Definition waitfg (p : Z) (pending : list delivery) : proc (list delivery) :=
  modify (fun st => set_check_fg st 0);;
  pending ← pause pending;
  st ← get;
  if check_fg st =? 0 then pause pending
  else mret pending.

(** ** The built-in commands bg and fg *)

Definition char_code (c : ascii) : Z := Z.of_N (N_of_ascii c).

Definition isspace (c : ascii) : bool :=
  (char_code c =? 32) || ((9 <=? char_code c) && (char_code c <=? 13)).

Definition isdigit (c : ascii) : bool :=
  (char_code "0" <=? char_code c) && (char_code c <=? char_code "9").

Fixpoint skip_spaces (s : string) : string :=
  match s with
  | String c rest => if isspace c then skip_spaces rest else s
  | EmptyString => s
  end.

Fixpoint digits_value (s : string) (acc : Z) : Z :=
  match s with
  | String c rest =>
      if isdigit c
      then digits_value rest (10 * acc + (char_code c - char_code "0"))
      else acc
  | EmptyString => acc
  end.

(** The number [atoi] reads: white space, an optional sign, then decimal
    digits up to the first other character. *)
Definition atoi_value (s : string) : Z :=
  match skip_spaces s with
  | String "-" rest => - digits_value rest 0
  | String "+" rest => digits_value rest 0
  | s' => digits_value s' 0
  end.

Definition INT_MAX : Z := 2147483647.
Definition INT_MIN : Z := -2147483648.

(** [atoi(s)]: when the number does not fit an [int] the C standard leaves
    the behaviour undefined. *)
Definition atoi (s : string) : proc Z :=
  let v := atoi_value s in
  if (INT_MIN <=? v) && (v <=? INT_MAX) then mret v else undefined.

(** [s[0]] and [s+1] of a C string; for the empty string [s[0]] is the
    terminating NUL.  ([do_bgfg] reads [atoi(argv[1]+1)] before it looks at
    [argv[1][0]]; for an empty [argv[1]] that number is read from the bytes
    after the NUL and is then not used.) *)
Definition char0 (s : string) : ascii :=
  match s with String c _ => c | EmptyString => "000" end.
Definition plus1 (s : string) : string :=
  match s with String _ rest => rest | EmptyString => EmptyString end.

Definition is_percent (c : ascii) : bool := char_code c =? char_code "%".

(** The two branches of [do_bgfg] after the error checks, which differ in
    the state written ([BG] or [FG]) and in what follows it. *)
Definition do_bg (a1 : string) : proc unit :=
  jid ← atoi (plus1 a1);
  if is_percent (char0 a1) then
    j ← read_job (jid - 1);
    kill (- pid j) SIGCONT;;
    write_state (jid - 1) BG;;
    j ← read_job (jid - 1);
    printf ("[" +:+ fmt_d jid +:+ "] (" +:+ fmt_d (pid j) +:+ ") "
            +:+ cmdline j)
  else
    let p := jid in
    st ← get;
    let jid := pid2jid st p in
    kill (- p) SIGCONT;;
    write_state (jid - 1) BG;;
    j ← read_job (jid - 1);
    printf ("[" +:+ fmt_d jid +:+ "] (" +:+ fmt_d p +:+ ") " +:+ cmdline j).

Definition do_fg (a1 : string) (pending : list delivery)
  : proc (list delivery) :=
  jid ← atoi (plus1 a1);
  if is_percent (char0 a1) then
    j ← read_job (jid - 1);
    let p := pid j in
    j ← read_job (jid - 1);
    kill (- pid j) SIGCONT;;
    write_state (jid - 1) FG;;
    waitfg p pending
  else
    (* the inner [pid_t pid = jid] hides the outer [pid], which stays 0 *)
    let p' := jid in
    st ← get;
    let jid := pid2jid st p' in
    kill (- p') SIGCONT;;
    write_state (jid - 1) FG;;
    waitfg 0 pending.

(** [argv] is the NULL-terminated argument vector: [argv[0]] is the
    command, and [argv[1] == NULL] when the list has one element.
    [pending] is consumed by [waitfg]. *)
Definition do_bgfg (argv : list string) (pending : list delivery)
  : proc (list delivery) :=
  match argv with
  | [] => undefined
  | cmd :: [] =>
      printf (cmd +:+ " requires PID or %jobid argument" +:+ nl);;
      mret pending
  | cmd :: a1 :: _ =>
      arg ← atoi (plus1 a1);
      let c := char0 a1 in
      if negb (isdigit c) && negb (is_percent c) then
        printf (cmd +:+ ": argument must be a PID or %jobid" +:+ nl);;
        mret pending
      else
        st ← get;
        if is_percent c && bool_decide (getjobjid (jobs st) arg = None) then
          printf ("%" +:+ fmt_d arg +:+ ": No such job" +:+ nl);;
          mret pending
        else if negb (is_percent c)
                && bool_decide (getjobpid (jobs st) arg = None) then
          printf ("(" +:+ fmt_d arg +:+ "): No such process" +:+ nl);;
          mret pending
        else if String.eqb cmd "bg" then do_bg a1;; mret pending
        else if String.eqb cmd "fg" then do_fg a1 pending
        else mret pending
  end.

(** ** Sequences of register and release operations *)

Inductive op : Type :=
| Register (p s : Z) (cmd : string)
| Release (p : Z).

Definition step (st : shell) (o : op) : shell :=
  match o with
  | Register p s cmd => snd (snd (addjob st p s cmd))
  | Release p => snd (deletejob st p)
  end.

Definition run (ops : list op) (st : shell) : shell :=
  fold_left step ops st.

(** Slot [i] is the lowest-indexed slot of [js] that passes [test]. *)
Definition lowest_slot (test : job_t -> bool) (js : list job_t) (i : nat)
  : Prop :=
  (exists j, js !! i = Some j /\ test j = true) /\
  forall k j, (k < i)%nat -> js !! k = Some j -> test j = false.

(** A job is live when its slot is in use, that is when its pid is not 0. *)
Definition unique_handles (js : list job_t) : Prop :=
  forall i k ji jk,
    js !! i = Some ji -> js !! k = Some jk ->
    pid ji <> 0 -> pid jk <> 0 -> jid ji = jid jk -> i = k.

Definition at_most_one_foreground (js : list job_t) : Prop :=
  forall i k ji jk,
    js !! i = Some ji -> js !! k = Some jk ->
    pid ji <> 0 -> pid jk <> 0 -> state ji = FG -> state jk = FG -> i = k.

(** No [addjob] fills a slot while the allocator stands at the 1 that the
    wrap of an earlier [addjob] gave it.  [wrapped] tells whether the last
    call that wrote [nextjid] was an [addjob] that took the branch
    [nextjid = 1]; a [deletejob] that finds its pid sets [nextjid] anew.
    The calls that fill or clear a slot are those that return 1. *)
Fixpoint fills_only_unwrapped (ops : list op) (st : shell) (wrapped : bool)
  : bool :=
  match ops with
  | [] => true
  | Register p s cmd :: rest =>
      if fst (snd (addjob st p s cmd)) =? 1
      then negb wrapped
           && fills_only_unwrapped rest (step st (Register p s cmd))
                (nextjid st + 1 >? MAXJOBS)
      else fills_only_unwrapped rest (step st (Register p s cmd)) wrapped
  | Release p :: rest =>
      fills_only_unwrapped rest (step st (Release p))
        (if fst (deletejob st p) =? 1 then false else wrapped)
  end.

(** Every registration in state [FG] is made when [fgpid] reports no
    foreground job. *)
Fixpoint foreground_discipline (ops : list op) (st : shell) : bool :=
  match ops with
  | [] => true
  | o :: rest =>
      match o with
      | Register _ s _ => negb (s =? FG) || (fgpid (jobs st) =? 0)
      | Release _ => true
      end && foreground_discipline rest (step st o)
  end.

(** ** listjobs *)

(** What [listjobs] prints for the slot [i] that holds [j]. *)
Definition listjobs_slot (i : nat) (j : job_t) : list event :=
  if pid j =? 0 then []
  else
    [Printf ("[" +:+ fmt_d (jid j) +:+ "] (" +:+ fmt_d (pid j) +:+ ") ");
     Printf (if state j =? BG then "Running "
             else if state j =? FG then "Foreground "
             else if state j =? ST then "Stopped "
             else "listjobs: Internal error: job[" +:+ fmt_d (Z.of_nat i)
                  +:+ "].state=" +:+ fmt_d (state j) +:+ " ");
     Printf (cmdline j)].

Fixpoint listjobs_from (js : list job_t) (i : nat) : list event :=
  match js with
  | [] => []
  | j :: rest => listjobs_slot i j ++ listjobs_from rest (S i)
  end.

Definition listjobs : proc unit :=
  fun st => (listjobs_from (jobs st) 0, Returns tt st).

(** ** parseline *)

Definition MAXLINE : Z := 1024.
Definition MAXARGS : Z := 128.

Definition is_blank (c : ascii) : bool := Ascii.eqb c " ".
Definition is_quote (c : ascii) : bool := Ascii.eqb c "'".

(** [buf[strlen(buf)-1] = ' '], for a string that is not empty. *)
Fixpoint blank_last (s : string) : string :=
  match s with
  | EmptyString => EmptyString
  | String c EmptyString => String " " EmptyString
  | String c rest => String c (blank_last rest)
  end.

(** The loop that moves [buf] over the blanks it points at. *)
Fixpoint skip_blanks (buf : string) : string :=
  match buf with
  | String c rest => if is_blank c then skip_blanks rest else buf
  | EmptyString => buf
  end.

(** [delim = strchr(buf, c)] for a [c] that is not NUL: [None] is [NULL];
    otherwise the characters of [buf] before [delim] and the string at
    [delim + 1]. *)
Fixpoint strchr (buf : string) (c : ascii) : option (string * string) :=
  match buf with
  | EmptyString => None
  | String a rest =>
      if Ascii.eqb a c then Some (EmptyString, rest)
      else prod_map (String a) id <$> strchr rest c
  end.

(** The choice of [delim], made before the loop and at the end of each of
    its rounds: the closing quote when [buf] points at a quote, the next
    blank otherwise.  The result is the argument that starts at [buf] and
    what follows its delimiter. *)
Definition next_arg (buf : string) : option (string * string) :=
  if is_quote (char0 buf) then strchr (plus1 buf) "'" else strchr buf " ".

(** [while (delim) { argv[argc++] = buf; ... }].  Every round moves [buf]
    forward, so the loop makes at most [strlen(buf)] rounds; [fuel] bounds
    them and [None] is fuel run out. *)
Fixpoint parse_args (fuel : nat) (buf : string) : option (list string) :=
  match next_arg buf with
  | None => Some []
  | Some (arg, rest) =>
      match fuel with
      | O => None
      | S fuel' => cons arg <$> parse_args fuel' (skip_blanks rest)
      end
  end.

(** [parseline(cmdline, argv)]: the argument vector built and the value
    returned.  [None] stands for the runs that C leaves undefined: an empty
    [cmdline] (write to [array[-1]]), a [cmdline] that does not fit
    [array[MAXLINE]], and more arguments than [argv[MAXARGS]] holds with
    its closing NULL. *)
Definition parseline (cmdline : string) : option (list string * Z) :=
  if bool_decide (String.length cmdline = 0%nat)
     || (MAXLINE <=? Z.of_nat (String.length cmdline)) then None
  else
    let buf := skip_blanks (blank_last cmdline) in
    match parse_args (String.length buf) buf with
    | None => None
    | Some argv =>
        if MAXARGS <=? Z.of_nat (length argv) then None
        else
          match last argv with
          | None => Some ([], 1)
          | Some a =>
              if Ascii.eqb (char0 a) "&" then Some (removelast argv, 1)
              else Some (argv, 0)
          end
    end.

(** ** builtin_cmd and eval *)

(** [argv] holds the command; [pending] is handed to [do_bgfg]. *)
Definition builtin_cmd (argv : list string) (pending : list delivery)
  : proc (Z * list delivery) :=
  match argv with
  | [] => undefined
  | cmd :: _ =>
      if String.eqb cmd "quit" then exit 0
      else if String.eqb cmd "jobs" then listjobs;; mret (1, pending)
      else if String.eqb cmd "fg" || String.eqb cmd "bg" then
        pending ← do_bgfg argv pending; mret (1, pending)
      else mret (0, pending)
  end.

(** What the operating system answers to the calls of one [eval]:
    the value of the [sigprocmask] that blocks SIGCHLD, the value of
    [fork], the value of the [sigprocmask] that unblocks SIGCHLD, whether
    [execve] succeeds (it then does not return), [strerror(errno)] for a
    failed call, the signals the shell catches while it waits in
    [pause()], and the SIGCHLD that the block has kept pending: [None]
    when no child changed state while SIGCHLD was blocked, otherwise what
    [waitpid] reports to the handler of that signal. *)
Record answers : Type := Answers {
  block_ret : Z;
  fork_ret : Z;
  unblock_ret : Z;
  execve_ok : bool;
  errstr : string;
  caught : list delivery;
  pending_chld : option (list (Z * wstatus))
}.

(** [addjob] as a procedure: what it prints, its value, the new state. *)
Definition addjob_proc (p s : Z) (cmd : string) : proc Z :=
  fun st => let '(out, (r, st')) := addjob st p s cmd in (out, Returns r st').

(** Where the control is when a call of [eval] is over: back in the
    caller (with what is left of the signals to catch), or, in the forked
    child, in the program that [execve] has loaded. *)
Inductive eval_end : Type :=
| Back (pending : list delivery)
| Runs_program (argv : list string).

Definition check_ret (ret : Z) (msg err : string) : proc unit :=
  if ret <? 0 then unix_error msg err else mret tt.

(** A SIGCHLD that the block has kept pending is delivered when the mask
    is lifted: [sigchld_handler] runs before [sigprocmask] returns. *)
Definition deliver_pending (os : answers) : proc unit :=
  match pending_chld os with
  | Some reaped => sigchld_handler reaped
  | None => mret tt
  end.

(** [sigprocmask(SIG_UNBLOCK, &sSet, NULL)] in the parent, with its test. *)
Definition unblock_sigchld (os : answers) : proc unit :=
  check_ret (unblock_ret os) ("sigprocmask error" +:+ nl) (errstr os);;
  deliver_pending os.

(** The signal mask and the process group are not part of [shell]: the
    calls [sigemptyset], [sigaddset], [sigprocmask] and [setpgid] show
    through the values they return and through the delivery of the pending
    SIGCHLD when the parent lifts the block.  (The child starts with no
    signal pending.)  A SIGCHLD caught after [sigprocmask] has returned
    and before [waitfg] clears [check_fg] acts as one delivered at the
    unblocking, and [pending_chld] stands for it as well.  Apart from
    that delivery, signals are caught inside [pause()] only, as in
    [waitfg]. *)
Definition eval (cmdline : string) (os : answers) : proc eval_end :=
  match parseline cmdline with
  | None => undefined
  | Some (argv, is_bg) =>
      match argv with
      | [] => mret (Back (caught os))
      | arg0 :: _ =>
          '(is_builtin_cmd, pending) ← builtin_cmd argv (caught os);
          if negb (is_builtin_cmd =? 0) then mret (Back pending)
          else
            check_ret (block_ret os) ("sigprocmask error" +:+ nl) (errstr os);;
            let pid := fork_ret os in
            check_ret pid ("fork error" +:+ nl) (errstr os);;
            if pid =? 0 then
              check_ret (unblock_ret os) ("sigprocmask error" +:+ nl)
                (errstr os);;
              if execve_ok os then mret (Runs_program argv)
              else printf (arg0 +:+ ": Command not found" +:+ nl);; exit 0
            else if is_bg =? 0 then
              addjob_proc pid FG cmdline;;
              unblock_sigchld os;;
              pending ← waitfg pid pending;
              mret (Back pending)
            else
              addjob_proc pid BG cmdline;;
              st ← get;
              printf ("[" +:+ fmt_d (pid2jid st pid) +:+ "] ("
                      +:+ fmt_d pid +:+ ") " +:+ cmdline);;
              unblock_sigchld os;;
              mret (Back pending)
      end
  end.

(** ** Predicates of the properties, and the tables of the examples *)

(** The tests of the loops of [addjob] and [deletejob]. *)
Definition empty_slot (j : job_t) : bool := pid j =? 0.
Definition has_pid (p : Z) (j : job_t) : bool := pid j =? p.

(** The allocator after [nextjid++] and the wrap of [addjob]. *)
Definition next_after (n : Z) : Z :=
  if n + 1 >? MAXJOBS then 1 else n + 1.

(** Every live handle is below the allocator.  [deletejob] establishes
    this, [addjob] keeps it unless it wraps. *)
Definition handles_below (st : shell) : Prop :=
  forall i j, jobs st !! i = Some j -> pid j <> 0 -> jid j < nextjid st.

Definition handle_invariant (wrapped : bool) (st : shell) : Prop :=
  unique_handles (jobs st) /\ (wrapped = false -> handles_below st).

(** No empty slot is in state [FG], so that [fgpid] is 0 only when no
    slot is. *)
Definition foreground_invariant (st : shell) : Prop :=
  (forall i j, jobs st !! i = Some j -> state j = FG -> pid j <> 0) /\
  at_most_one_foreground (jobs st).

Definition handles_within (n : Z) (st : shell) : Prop :=
  1 <= nextjid st <= n + 1 /\
  forall i j, jobs st !! i = Some j -> 0 <= jid j <= n.

(** The procedure returns to its caller: the shell goes on. *)
Definition survives {A} (r : list event * outcome A) : Prop :=
  exists a st', snd r = Returns a st'.

(** Handle reuse as the specification words it, for the pids [p1], [p2],
    [p3] of the three registered jobs and [p4] of the job registered after
    the release of [p2]: the allocator stands at 2 and [p4] receives
    handle 2. *)
Definition handle_reuse_as_specified (p1 p2 p3 p4 : Z) : Prop :=
  let st3 := run [Register p1 BG "a"; Register p2 BG "b"; Register p3 BG "c"]
                 initial_shell in
  let st := step st3 (Release p2) in
  let st' := step st (Register p4 BG "d") in
  pid2jid st3 p1 = 1 /\ pid2jid st3 p2 = 2 /\ pid2jid st3 p3 = 3 /\
  nextjid st = 2 /\ pid2jid st' p4 = 2.

(** Fifteen jobs, the release of the second one, and two more jobs. *)
Definition wrapping_ops : list op :=
  ((fun n => Register (Z.of_nat n) BG "job") <$> seq 1 15)
  ++ [Release 2; Register 16 BG "job"; Register 17 BG "job"].

(** Sixteen jobs, which fill the table and wrap the allocator, then the
    release of the third one and one more job. *)
Definition full_table_ops : list op :=
  ((fun n => Register (Z.of_nat n) BG "job") <$> seq 1 16)
  ++ [Release 3; Register 17 BG "job"].

Definition reuse_ops : list op :=
  [Register 10 BG "a"; Register 20 FG "b"; Release 20; Register 30 FG "c"].

Definition one_job : shell :=
  step initial_shell (Register 10 BG ("/bin/sleep 5 &" +:+ nl)).

Definition sleeping_foreground : shell :=
  step initial_shell (Register 5 FG ("/bin/sleep 100" +:+ nl)).

Definition stopped_1234 : shell :=
  step initial_shell (Register 1234 ST ("/bin/sleep 100" +:+ nl)).

(** Slot 0 holds handle 3, slot 1 holds handle 2, slot 2 is empty. *)
Definition shuffled_table : shell :=
  run [Register 10 ST ("/bin/a" +:+ nl); Register 20 ST ("/bin/b" +:+ nl);
       Release 10; Register 30 ST ("/bin/c" +:+ nl)] initial_shell.

(** The foreground job (pid 30) sits in slot 0 with handle 3; slot 1 holds
    handle 2 and slot 2 is empty. *)
Definition shuffled_foreground : shell :=
  run [Register 10 BG ("/bin/a &" +:+ nl); Register 20 BG ("/bin/b &" +:+ nl);
       Release 10; Register 30 FG ("/bin/c" +:+ nl)] initial_shell.

(** A foreground job (pid 5) and two background jobs (pids 6 and 7). *)
Definition busy_table : shell :=
  run [Register 5 FG ("/bin/sleep 100" +:+ nl);
       Register 6 BG ("/bin/true &" +:+ nl);
       Register 7 BG ("/bin/true &" +:+ nl)] initial_shell.

(** A slot as [addjob] and [deletejob] leave it: cleared, or holding a
    job with a pid and a handle of at least 1. *)
Definition slot_wellformed (j : job_t) : Prop :=
  j = Job 0 0 UNDEF "" \/ (1 <= pid j /\ 1 <= jid j).

Definition table_wellformed (st : shell) : Prop :=
  1 <= nextjid st /\
  forall i j, jobs st !! i = Some j -> slot_wellformed j.

(** ** Predicates and strings of the further properties *)

(** The flag that the handler leaves for [waitfg] when it has reaped one
    child: 1 when [jobs[jid-1]], read as [j], is in state FG. *)
Definition flag_for (j : job_t) : Z := if state j =? FG then 1 else 0.

Fixpoint all_digits (s : string) : bool :=
  match s with
  | EmptyString => true
  | String c rest => isdigit c && all_digits rest
  end.

Fixpoint no_char (c : ascii) (s : string) : bool :=
  match s with
  | EmptyString => true
  | String a rest => negb (Ascii.eqb a c) && no_char c rest
  end.

(** A word as one types it without quotes: not empty, no blank in it, no
    quote at its start. *)
Definition plain_word (w : string) : bool :=
  negb (String.eqb w "") && no_char " " w && negb (is_quote (char0 w)).

(** The words [ws] with one blank between them and [e] after the last. *)
Fixpoint line_of (ws : list string) (e : ascii) : string :=
  match ws with
  | [] => EmptyString
  | w :: rest =>
      match rest with
      | [] => w +:+ String e EmptyString
      | _ => w +:+ String " " (line_of rest e)
      end
  end.

Definition newline : ascii := "010".

(** The loop of [parseline] with the fuel that is always enough. *)
Definition parse (buf : string) : option (list string) :=
  parse_args (String.length buf) buf.

Fixpoint blanks (n : nat) : string :=
  match n with
  | O => EmptyString
  | S n' => String " " (blanks n')
  end.

Definition state_label (s : Z) : string :=
  if s =? BG then "Running "
  else if s =? FG then "Foreground " else "Stopped ".

(** The three pieces [listjobs] prints for a job in one of the states BG,
    FG and ST. *)
Definition job_line (j : job_t) : list event :=
  [Printf ("[" +:+ fmt_d (jid j) +:+ "] (" +:+ fmt_d (pid j) +:+ ") ");
   Printf (state_label (state j));
   Printf (cmdline j)].

Definition known_state (s : Z) : Prop := s = FG \/ s = BG \/ s = ST.

Definition registers_known_state (o : op) : Prop :=
  match o with
  | Register _ s _ => known_state s
  | Release _ => True
  end.

Definition live_states_known (st : shell) : Prop :=
  forall i j, jobs st !! i = Some j -> pid j <> 0 -> known_state (state j).

(** The names that [builtin_cmd] compares [argv[0]] with. *)
Definition builtin_name (cmd : string) : bool :=
  String.eqb cmd "quit" || String.eqb cmd "jobs"
  || String.eqb cmd "fg" || String.eqb cmd "bg".

Definition ls_background : string := "/bin/ls &" +:+ nl.
Definition ls_foreground : string := "/bin/ls" +:+ nl.

(** The table of sixteen jobs. *)
Definition full_table : shell := run (take 16 full_table_ops) initial_shell.

(** ** Properties of the lookups *)

Ltac decide_tests :=
  repeat match goal with
  | |- context [?a <? ?b] =>
      first [ replace (a <? b) with false by (symmetry; apply Z.ltb_ge; lia)
            | replace (a <? b) with true by (symmetry; apply Z.ltb_lt; lia) ]
  | |- context [?a =? ?b] =>
      first [ replace (a =? b) with false by (symmetry; apply Z.eqb_neq; lia)
            | replace (a =? b) with true by (symmetry; apply Z.eqb_eq; lia) ]
  end.

Ltac run_proc :=
  unfold modify, unix_error, kill, printf;
  unfold mbind, mret, proc_mbind, proc_ret, proc_bind, get, put,
    emit, exit, undefined, suspended; cbn.

Section first_slot.
Variable test : job_t -> bool.

Lemma first_slot_shift js k :
  first_slot test js (S k)
  = prod_map S id <$> first_slot test js k.
Proof.
  revert k. induction js as [|j js IH]; intros k; simpl; [done|].
  destruct (test j); [done|]. apply IH.
Qed.

Lemma first_slot_lowest js i j :
  first_slot test js 0 = Some (i, j) <->
  js !! i = Some j /\ lowest_slot test js i.
Proof.
  revert i j. induction js as [|a js IH]; intros i j; simpl.
  - split; [done|]. by intros [? _].
  - destruct (test a) eqn:Ha.
    + split.
      * intros [= <- <-]. repeat split; eauto. intros k ? Hk. lia.
      * intros [Hi [_ Hlow]]. destruct i as [|i]; [by simplify_eq/=|].
        specialize (Hlow 0%nat a). simpl in Hlow.
        rewrite Hlow in Ha by (done || lia). done.
    + rewrite first_slot_shift. split.
      * destruct (first_slot test js 0) as [[i' j']|]; [|done].
        intros [= <- <-].
        destruct (proj1 (IH i' j') eq_refl) as (Hi & [Hex Hlow]).
        repeat split; [done|exact Hex|].
        intros [|k] b Hk Hb; simplify_eq/=; [done|].
        apply (Hlow k); [lia|done].
      * intros [Hi [[b [Hb Hbt]] Hlow]].
        destruct i as [|i]; simplify_eq/=; [congruence|].
        assert (first_slot test js 0 = Some (i, j)) as ->; [|done].
        apply IH. repeat split; eauto.
        intros k c Hk Hc. apply (Hlow (S k)); [lia|done].
Qed.

Lemma first_slot_None js :
  first_slot test js 0 = None <->
  forall i j, js !! i = Some j -> test j = false.
Proof.
  induction js as [|a js IH]; simpl.
  - split; [by intros _ ??|done].
  - destruct (test a) eqn:Ha.
    + split; [done|]. intros H. specialize (H 0%nat a eq_refl). congruence.
    + rewrite first_slot_shift.
      destruct (first_slot test js 0) as [[i' j']|]; simpl.
      * split; [done|]. intros H.
        assert (Some (i', j') = None); [|done].
        apply IH. intros i j Hj. by apply (H (S i)).
      * split; [|done]. intros _ [|i] j Hj; simplify_eq/=; [done|].
        destruct IH as [IH _]. by apply (IH eq_refl i).
Qed.

Lemma lowest_slot_first js i :
  lowest_slot test js i ->
  exists j, js !! i = Some j /\ first_slot test js 0 = Some (i, j).
Proof.
  intros [[j [Hj Ht]] Hlow]. exists j. split; [done|].
  apply first_slot_lowest. repeat split; eauto.
Qed.
End first_slot.

(** ** What addjob and deletejob do to the shell *)

Lemma addjob_fills st p s cmd i :
  1 <= p -> lowest_slot empty_slot (jobs st) i ->
  snd (addjob st p s cmd)
  = (1, Shell (<[i := Job p (nextjid st) s cmd]> (jobs st))
          (next_after (nextjid st)) (verbose st) (check_fg st)).
Proof.
  intros Hp Hi. unfold addjob.
  destruct (Z.ltb_spec p 1) as [?|_]; [lia|].
  apply lowest_slot_first in Hi as (j & _ & Hf).
  unfold empty_slot in Hf. by rewrite Hf.
Qed.

Lemma addjob_rejects st p s cmd :
  p < 1 \/ (forall i j, jobs st !! i = Some j -> pid j <> 0) ->
  snd (addjob st p s cmd) = (0, st).
Proof.
  intros H. unfold addjob.
  destruct (Z.ltb_spec p 1) as [?|Hp]; [done|].
  destruct H as [?|Hfull]; [lia|].
  assert (first_slot (fun j => pid j =? 0) (jobs st) 0 = None) as ->; [|done].
  apply first_slot_None. intros i j Hj. apply Z.eqb_neq. eauto.
Qed.

Lemma addjob_cases st p s cmd :
  snd (addjob st p s cmd) = (0, st) \/
  exists i, 1 <= p /\ lowest_slot empty_slot (jobs st) i /\
    snd (addjob st p s cmd)
    = (1, Shell (<[i := Job p (nextjid st) s cmd]> (jobs st))
            (next_after (nextjid st)) (verbose st) (check_fg st)).
Proof.
  destruct (Z.ltb_spec p 1) as [Hp|Hp].
  { left. apply addjob_rejects. by left. }
  destruct (first_slot empty_slot (jobs st) 0) as [[i j]|] eqn:E.
  - right. exists i. apply first_slot_lowest in E as [_ Hlow].
    eauto using addjob_fills.
  - left. apply addjob_rejects. right. intros i j Hj.
    apply Z.eqb_neq. revert i j Hj. by apply first_slot_None.
Qed.

Lemma deletejob_clears st p i :
  1 <= p -> lowest_slot (has_pid p) (jobs st) i ->
  deletejob st p
  = (1, Shell (alter clearjob i (jobs st))
          (maxjid (alter clearjob i (jobs st)) + 1)
          (verbose st) (check_fg st)).
Proof.
  intros Hp Hi. unfold deletejob.
  destruct (Z.ltb_spec p 1) as [?|_]; [lia|].
  apply lowest_slot_first in Hi as (j & _ & Hf).
  unfold has_pid in Hf. by rewrite Hf.
Qed.

Lemma deletejob_cases st p :
  deletejob st p = (0, st) \/
  exists i, 1 <= p /\ lowest_slot (has_pid p) (jobs st) i /\
    deletejob st p
    = (1, Shell (alter clearjob i (jobs st))
            (maxjid (alter clearjob i (jobs st)) + 1)
            (verbose st) (check_fg st)).
Proof.
  destruct (Z.ltb_spec p 1) as [Hp|Hp].
  { left. unfold deletejob. by destruct (Z.ltb_spec p 1); [|lia]. }
  destruct (first_slot (has_pid p) (jobs st) 0) as [[i j]|] eqn:E.
  - right. exists i. apply first_slot_lowest in E as [_ Hlow].
    eauto using deletejob_clears.
  - left. unfold deletejob. destruct (Z.ltb_spec p 1); [lia|].
    unfold has_pid in E. by rewrite E.
Qed.

Lemma deletejob_rejects st p :
  p < 1 \/ (forall i j, jobs st !! i = Some j -> pid j <> p) ->
  deletejob st p = (0, st).
Proof.
  intros H. unfold deletejob.
  destruct (Z.ltb_spec p 1) as [?|Hp]; [done|].
  destruct H as [?|Hnone]; [lia|].
  assert (first_slot (fun j => pid j =? p) (jobs st) 0 = None) as ->; [|done].
  apply first_slot_None. intros i j Hj. apply Z.eqb_neq. eauto.
Qed.

Lemma lowest_slot_lt test js i : lowest_slot test js i -> (i < length js)%nat.
Proof. intros [[j [Hj _]] _]. by eapply lookup_lt_Some. Qed.

(** C10.  [addjob] fills the lowest-indexed slot whose pid is 0 and
    [deletejob] clears the (lowest-indexed) slot whose pid matches; each
    leaves every other slot, and the globals [verbose] and [check_fg], as
    they were: besides that one slot only [nextjid] is written.  When
    there is no such slot, or the pid is below 1, nothing is written. *)
Theorem addjob_deletejob_frame :
  (forall st p s cmd i,
     1 <= p -> lowest_slot empty_slot (jobs st) i ->
     let r := snd (addjob st p s cmd) in
     fst r = 1 /\
     jobs (snd r) !! i = Some (Job p (nextjid st) s cmd) /\
     (forall k, k <> i -> jobs (snd r) !! k = jobs st !! k) /\
     length (jobs (snd r)) = length (jobs st) /\
     verbose (snd r) = verbose st /\ check_fg (snd r) = check_fg st) /\
  (forall st p i,
     1 <= p -> lowest_slot (has_pid p) (jobs st) i ->
     let r := deletejob st p in
     fst r = 1 /\
     jobs (snd r) !! i = Some (Job 0 0 UNDEF "") /\
     (forall k, k <> i -> jobs (snd r) !! k = jobs st !! k) /\
     length (jobs (snd r)) = length (jobs st) /\
     verbose (snd r) = verbose st /\ check_fg (snd r) = check_fg st) /\
  (forall st p s cmd,
     p < 1 \/ (forall i j, jobs st !! i = Some j -> pid j <> 0) ->
     snd (addjob st p s cmd) = (0, st)) /\
  (forall st p,
     p < 1 \/ (forall i j, jobs st !! i = Some j -> pid j <> p) ->
     deletejob st p = (0, st)).
Proof.
  split; [|split; [|split]].
  - intros st p s cmd i Hp Hi r. subst r.
    rewrite (addjob_fills _ _ _ _ _ Hp Hi). simpl.
    pose proof (lowest_slot_lt _ _ _ Hi) as Hlt.
    repeat split.
    + by apply list_lookup_insert_eq.
    + intros k Hk. by apply list_lookup_insert_ne.
    + apply length_insert.
  - intros st p i Hp Hi r. subst r.
    rewrite (deletejob_clears _ _ _ Hp Hi). simpl.
    destruct Hi as [[j [Hj _]] _].
    repeat split.
    + by rewrite list_lookup_alter_eq, Hj.
    + intros k Hk. by apply list_lookup_alter_ne.
    + apply length_alter.
  - apply addjob_rejects.
  - apply deletejob_rejects.
Qed.

(** ** Handle allocation *)

Lemma handle_reuse_counterexample : ~ handle_reuse_as_specified 10 20 30 40.
Proof.
  unfold handle_reuse_as_specified. intros (_ & _ & _ & Hnext & _).
  vm_compute in Hnext. discriminate.
Qed.

Lemma initial_shell_eq :
  initial_shell = Shell (replicate 16 (Job 0 0 UNDEF "")) 1 0 0.
Proof. reflexivity. Qed.

(** C7, as the code has it.  Three jobs registered in the empty table
    receive the handles 1, 2, 3; releasing the job with handle 2 leaves
    the handles 1 and 3 live and sets the allocator to their maximum plus
    one, which is 4; the job registered next goes into the freed slot 1
    and receives handle 4. *)
Theorem handle_after_release
    (p1 p2 p3 p4 s1 s2 s3 s4 : Z) (c1 c2 c3 c4 : string) :
  1 <= p1 -> 1 <= p2 -> 1 <= p3 -> 1 <= p4 -> p1 <> p2 ->
  let st3 := run [Register p1 s1 c1; Register p2 s2 c2; Register p3 s3 c3]
                 initial_shell in
  let st := step st3 (Release p2) in
  let st' := step st (Register p4 s4 c4) in
  take 3 (jobs st3) = [Job p1 1 s1 c1; Job p2 2 s2 c2; Job p3 3 s3 c3] /\
  take 3 (jobs st) = [Job p1 1 s1 c1; Job 0 0 UNDEF ""; Job p3 3 s3 c3] /\
  maxjid (jobs st) = 3 /\ nextjid st = 4 /\
  take 3 (jobs st') = [Job p1 1 s1 c1; Job p4 4 s4 c4; Job p3 3 s3 c3] /\
  nextjid st' = 5.
Proof.
  intros H1 H2 H3 H4 H12 st3 st st'.
  assert (st3 = Shell ([Job p1 1 s1 c1; Job p2 2 s2 c2; Job p3 3 s3 c3]
                         ++ replicate 13 (Job 0 0 UNDEF "")) 4 0 0) as E3.
  { subst st3. rewrite initial_shell_eq. unfold run, step, addjob. cbn.
    decide_tests. cbn. decide_tests. cbn. decide_tests. reflexivity. }
  assert (st = Shell ([Job p1 1 s1 c1; Job 0 0 UNDEF ""; Job p3 3 s3 c3]
                        ++ replicate 13 (Job 0 0 UNDEF "")) 4 0 0) as E.
  { subst st. rewrite E3. unfold step, deletejob. cbn. decide_tests. cbn.
    unfold maxjid. reflexivity. }
  assert (st' = Shell ([Job p1 1 s1 c1; Job p4 4 s4 c4; Job p3 3 s3 c3]
                         ++ replicate 13 (Job 0 0 UNDEF "")) 5 0 0) as E'.
  { subst st'. rewrite E. unfold step, addjob. cbn. decide_tests. cbn.
    decide_tests. reflexivity. }
  rewrite E3, E, E'. repeat split; reflexivity.
Qed.

(** ** Uniqueness of handles *)

Lemma maxjid_from_ge js m : m <= maxjid_from js m.
Proof.
  revert m. induction js as [|j js IH]; intros m; simpl; [lia|].
  specialize (IH (if jid j >? m then jid j else m)).
  destruct (Z.gtb_spec (jid j) m); lia.
Qed.

Lemma maxjid_from_lookup js m i j :
  js !! i = Some j -> jid j <= maxjid_from js m.
Proof.
  revert m i. induction js as [|a js IH]; intros m [|i] Hj; simplify_eq/=.
  - pose proof (maxjid_from_ge js (if jid j >? m then jid j else m)).
    destruct (Z.gtb_spec (jid j) m); lia.
  - by eapply IH.
Qed.

Lemma maxjid_lookup js i j : js !! i = Some j -> jid j <= maxjid js.
Proof. apply maxjid_from_lookup. Qed.

Lemma initial_shell_empty i j :
  jobs initial_shell !! i = Some j -> j = Job 0 0 UNDEF "".
Proof.
  rewrite initial_shell_eq. cbn [jobs]. by intros [-> _]%lookup_replicate.
Qed.

Lemma handle_invariant_initial : handle_invariant false initial_shell.
Proof.
  split.
  - intros i k ji jk Hi _ Hlive. apply initial_shell_empty in Hi as ->. done.
  - intros _ i j Hj Hlive. apply initial_shell_empty in Hj as ->. done.
Qed.

Lemma alter_clearjob_live (js : list job_t) (i k : nat) j :
  alter clearjob i js !! k = Some j -> pid j <> 0 ->
  k <> i /\ js !! k = Some j.
Proof.
  intros Hk Hlive. destruct (decide (k = i)) as [->|Hne].
  - rewrite list_lookup_alter_eq in Hk.
    destruct (js !! i); by simplify_eq/=.
  - by rewrite list_lookup_alter_ne in Hk.
Qed.

Lemma handle_invariant_release w st p :
  handle_invariant w st ->
  handle_invariant (if fst (deletejob st p) =? 1 then false else w)
    (step st (Release p)).
Proof.
  intros [Huniq Hbelow]. simpl.
  destruct (deletejob_cases st p) as [->|(i & Hp & Hi & ->)]; simpl; [done|].
  split.
  - intros a b ja jb Ha Hb Hla Hlb Heq.
    apply alter_clearjob_live in Ha as [_ Ha]; [|done].
    apply alter_clearjob_live in Hb as [_ Hb]; [|done].
    by eapply Huniq.
  - intros _ k j Hk _. simpl in *. apply maxjid_lookup in Hk. lia.
Qed.

Lemma handle_invariant_register st p s cmd :
  fst (snd (addjob st p s cmd)) = 1 ->
  handle_invariant false st ->
  handle_invariant (nextjid st + 1 >? MAXJOBS) (step st (Register p s cmd)).
Proof.
  intros Hret [Huniq Hbelow]. specialize (Hbelow eq_refl). simpl.
  destruct (addjob_cases st p s cmd) as [E|(i & Hp & Hi & E)];
    rewrite E in Hret |- *; [done|].
  simpl. pose proof (lowest_slot_lt _ _ _ Hi) as Hlt.
  split.
  - intros a b ja jb Ha Hb Hla Hlb Heq.
    destruct (decide (a = i)) as [->|Hai], (decide (b = i)) as [->|Hbi];
      cbn [jobs] in Ha, Hb; [done| | |].
    + rewrite list_lookup_insert_eq in Ha by done.
      rewrite list_lookup_insert_ne in Hb by done. simplify_eq/=.
      specialize (Hbelow b jb Hb Hlb). lia.
    + rewrite list_lookup_insert_ne in Ha by done.
      rewrite list_lookup_insert_eq in Hb by done. simplify_eq/=.
      specialize (Hbelow a ja Ha Hla). lia.
    + rewrite list_lookup_insert_ne in Ha, Hb by done. by eapply Huniq.
  - intros Hnowrap k j Hk Hlive. cbn [jobs nextjid] in *.
    unfold next_after. rewrite Hnowrap.
    destruct (decide (k = i)) as [->|Hne].
    + rewrite list_lookup_insert_eq in Hk by done. simplify_eq/=. lia.
    + rewrite list_lookup_insert_ne in Hk by done.
      specialize (Hbelow k j Hk Hlive). lia.
Qed.

Lemma handle_invariant_rejected w st p s cmd :
  fst (snd (addjob st p s cmd)) <> 1 ->
  handle_invariant w st -> handle_invariant w (step st (Register p s cmd)).
Proof.
  intros Hret Hinv. simpl.
  destruct (addjob_cases st p s cmd) as [E|(i & Hp & Hi & E)];
    rewrite E in Hret |- *; done.
Qed.

Lemma handle_invariant_run pre post st w :
  fills_only_unwrapped (pre ++ post) st w = true ->
  handle_invariant w st -> exists w', handle_invariant w' (run pre st).
Proof.
  revert st w. induction pre as [|o pre IH]; intros st w Hf Hinv; [by eexists|].
  destruct o as [p s cmd|p]; cbn [app fills_only_unwrapped] in Hf.
  - destruct (Z.eqb_spec (fst (snd (addjob st p s cmd))) 1) as [Hret|Hret].
    + apply andb_true_iff in Hf as [Hw Hrest].
      apply negb_true_iff in Hw. subst w.
      eapply IH; [exact Hrest|]. by apply handle_invariant_register.
    + eapply IH; [exact Hf|]. by apply handle_invariant_rejected.
  - eapply IH; [exact Hf|]. by apply handle_invariant_release.
Qed.

Lemma unique_handles_counterexample :
  ~ unique_handles (jobs (run wrapping_ops initial_shell)).
Proof.
  intros H.
  specialize (H 0%nat 15%nat (Job 1 1 BG "job") (Job 17 1 BG "job")).
  vm_compute in H.
  assert (0 = 15)%nat; [|done].
  apply H; congruence.
Qed.

Example wrapping_ops_fill_after_wrap :
  fills_only_unwrapped wrapping_ops initial_shell false = false.
Proof. reflexivity. Qed.

(** C8, as the code has it.  Along every sequence of [addjob] and
    [deletejob] calls from the empty table in which no [addjob] fills a
    slot while the allocator stands at the 1 that the wrap of an earlier
    [addjob] gave it (that is, between an [addjob] that took the branch
    [nextjid = 1] and the next [deletejob] that finds its pid), after
    every prefix of the sequence no two live slots hold the same jid. *)
Theorem unique_handles_without_wrap (ops pre post : list op) :
  ops = pre ++ post ->
  fills_only_unwrapped ops initial_shell false = true ->
  unique_handles (jobs (run pre initial_shell)).
Proof.
  intros -> Hf.
  destruct (handle_invariant_run pre post initial_shell false Hf
              handle_invariant_initial) as [w' [Huniq _]].
  exact Huniq.
Qed.

(** ** At most one foreground job *)

Lemma fgpid_zero (js : list job_t) :
  (forall i j, js !! i = Some j -> state j = FG -> pid j <> 0) ->
  fgpid js = 0 ->
  forall i j, js !! i = Some j -> state j <> FG.
Proof.
  intros Hlive Hfg. unfold fgpid in Hfg.
  destruct (first_slot (fun j => state j =? FG) js 0) as [[k j0]|] eqn:E.
  - apply first_slot_lowest in E as (Hk & [(j1 & Hj1 & Ht) _]).
    assert (j1 = j0) as -> by congruence.
    apply Z.eqb_eq in Ht. by destruct (Hlive k j0).
  - intros i j Hj. apply Z.eqb_neq. revert i j Hj. by apply first_slot_None.
Qed.

Lemma foreground_invariant_initial : foreground_invariant initial_shell.
Proof.
  split.
  - intros i j Hj Hfg. apply initial_shell_empty in Hj as ->. done.
  - intros i k ji jk Hi _ Hlive. apply initial_shell_empty in Hi as ->. done.
Qed.

Lemma foreground_invariant_release st p :
  foreground_invariant st -> foreground_invariant (step st (Release p)).
Proof.
  intros [Hlive Hone]. simpl.
  destruct (deletejob_cases st p) as [->|(i & Hp & Hi & ->)]; simpl; [done|].
  split.
  - intros k j Hk Hfg. cbn [jobs] in Hk.
    destruct (decide (k = i)) as [->|Hne].
    + rewrite list_lookup_alter_eq in Hk.
      destruct (jobs st !! i); by simplify_eq/=.
    + rewrite list_lookup_alter_ne in Hk by done. eauto.
  - intros a b ja jb Ha Hb Hla Hlb Hfa Hfb.
    apply alter_clearjob_live in Ha as [_ Ha]; [|done].
    apply alter_clearjob_live in Hb as [_ Hb]; [|done].
    by eapply Hone.
Qed.

Lemma foreground_invariant_register st p s cmd :
  negb (s =? FG) || (fgpid (jobs st) =? 0) = true ->
  foreground_invariant st ->
  foreground_invariant (step st (Register p s cmd)).
Proof.
  intros Hdisc [Hlive Hone]. simpl.
  destruct (addjob_cases st p s cmd) as [->|(i & Hp & Hi & ->)]; [done|].
  simpl. pose proof (lowest_slot_lt _ _ _ Hi) as Hlt.
  assert (forall k j,
    <[i := Job p (nextjid st) s cmd]> (jobs st) !! k = Some j ->
    state j = FG -> (k = i /\ s = FG) \/ (k <> i /\ jobs st !! k = Some j))
    as Hcases.
  { intros k j Hk Hfg. destruct (decide (k = i)) as [->|Hne].
    - rewrite list_lookup_insert_eq in Hk by done. simplify_eq/=. by left.
    - rewrite list_lookup_insert_ne in Hk by done. by right. }
  split.
  - intros k j Hk Hfg. cbn [jobs] in Hk.
    destruct (Hcases k j Hk Hfg) as [[-> _]|[_ Hold]]; [|by eauto].
    rewrite list_lookup_insert_eq in Hk by done. simplify_eq/=. lia.
  - intros a b ja jb Ha Hb Hla Hlb Hfa Hfb. cbn [jobs] in Ha, Hb.
    destruct (Hcases a ja Ha Hfa) as [[-> Hs]|[Hai Ha']],
             (Hcases b jb Hb Hfb) as [[-> Hs']|[Hbi Hb']];
      [done| | |by eapply Hone].
    + apply orb_true_iff in Hdisc as [Hn|Hz].
      * apply negb_true_iff, Z.eqb_neq in Hn. done.
      * apply Z.eqb_eq in Hz. by destruct (fgpid_zero _ Hlive Hz b jb).
    + apply orb_true_iff in Hdisc as [Hn|Hz].
      * apply negb_true_iff, Z.eqb_neq in Hn. done.
      * apply Z.eqb_eq in Hz. by destruct (fgpid_zero _ Hlive Hz a ja).
Qed.

Lemma foreground_invariant_run pre post st :
  foreground_discipline (pre ++ post) st = true ->
  foreground_invariant st -> foreground_invariant (run pre st).
Proof.
  revert st. induction pre as [|o pre IH]; intros st Hd Hinv; [done|].
  simpl in Hd. apply andb_true_iff in Hd as [Ho Hrest].
  simpl. apply IH; [done|]. destruct o as [p s cmd|p].
  - by apply foreground_invariant_register.
  - by apply foreground_invariant_release.
Qed.

(** What the job list would need of its callers: along every sequence of
    [addjob] and [deletejob] calls from the empty table in which a job is
    registered in state [FG] only when [fgpid] reports no foreground job,
    after every prefix of the sequence at most one live job has state
    [FG].  The shell does not keep to it, see below. *)
Lemma one_foreground_under_discipline (ops pre post : list op) :
  ops = pre ++ post ->
  foreground_discipline ops initial_shell = true ->
  at_most_one_foreground (jobs (run pre initial_shell)).
Proof.
  intros -> Hd.
  by apply (foreground_invariant_run pre post initial_shell Hd),
    foreground_invariant_initial.
Qed.

(** C9.  The bound of the header comment, at most one job in state FG,
    is broken by a run of the shell itself.  [eval] registers a foreground
    job with [addjob(jobs,pid,FG,cmdline)] and never looks at [fgpid].
    When the foreground child 10 is killed by SIGKILL, [sigchld_handler]
    sets [check_fg], so that [waitfg] returns, and leaves the job in the
    list in state FG; the [addjob] of the next foreground command then
    makes two live jobs in state FG. *)
Theorem foreground_bound_broken :
  let cmd := "/bin/sleep 100" +:+ nl in
  let st1 := snd (snd (addjob initial_shell 10 FG cmd)) in
  let st1' := set_check_fg st1 1 in
  let st2 := snd (snd (addjob st1' 20 FG cmd)) in
  sigchld_handler [(10, WSIGNALED 9)] st1 = ([], Returns tt st1') /\
  waitfg 10 [CaughtCHLD [(10, WSIGNALED 9)]] st1 = ([], Returns [] st1') /\
  fgpid (jobs st1') = 10 /\
  jobs st2 !! 0%nat = Some (Job 10 1 FG cmd) /\
  jobs st2 !! 1%nat = Some (Job 20 2 FG cmd) /\
  ~ at_most_one_foreground (jobs st2).
Proof.
  intros cmd st1 st1' st2.
  repeat split; try (vm_compute; reflexivity).
  intros H.
  specialize (H 0%nat 1%nat (Job 10 1 FG cmd) (Job 20 2 FG cmd)).
  assert (0 = 1)%nat; [|done].
  apply H; by vm_compute.
Qed.

(** ** The signal relay *)

Lemma relay_failure_counterexample :
  ~ survives (sigint_handler (-1) "No such process" sleeping_foreground).
Proof. intros (a & st' & H). vm_compute in H. discriminate. Qed.

(** C5, as the code has it.  When [kill] fails in [sigint_handler] or in
    [sigtstp_handler], [unix_error] prints the report and calls [exit(1)]:
    the shell ends, with the job list never written. *)
Theorem relay_failure_exits (st : shell) (ret : Z) (err : string) :
  ret < 0 ->
  sigint_handler ret err st
  = ([Kill (- fgpid (jobs st)) SIGINT;
      Printf ("kill error" +:+ nl +:+ ": " +:+ err +:+ nl)], Exits 1) /\
  sigtstp_handler ret err st
  = ([Kill (- fgpid (jobs st)) SIGTSTP;
      Printf ("kill error" +:+ nl +:+ ": " +:+ err +:+ nl)], Exits 1).
Proof.
  intros Hret. unfold sigint_handler, sigtstp_handler. run_proc.
  destruct (Z.ltb_spec ret 0); [|lia]. split; reflexivity.
Qed.

Lemma fgpid_none (js : list job_t) :
  Forall (fun j => state j <> FG) js -> fgpid js = 0.
Proof.
  intros Hall. unfold fgpid.
  assert (first_slot (fun j => state j =? FG) js 0 = None) as ->; [|done].
  apply first_slot_None. intros i j Hj. apply Z.eqb_neq.
  by eapply (proj1 (Forall_lookup _ _) Hall).
Qed.

(** C2.  With no slot in state [FG], [fgpid] returns 0 and both handlers
    call [kill] with target [-0], the shell's own process group;
    [sigtstp_handler] then writes [jobs[pid2jid(0)-1]], which is
    [jobs[-1]]. *)
Theorem relay_without_foreground (st : shell) (ret : Z) (err : string) :
  Forall (fun j => state j <> FG) (jobs st) -> 0 <= ret ->
  sigint_handler ret err st = ([Kill 0 SIGINT], Returns tt st) /\
  sigtstp_handler ret err st = ([Kill 0 SIGTSTP], Undefined).
Proof.
  intros Hnone Hret. unfold sigint_handler, sigtstp_handler.
  unfold write_state, pid2jid. run_proc.
  rewrite (fgpid_none _ Hnone). cbn.
  destruct (Z.ltb_spec ret 0); [lia|]. split; reflexivity.
Qed.

(** ** The notification handler *)

(** C1.  A child that was killed by a signal other than SIGINT is reaped
    and its job stays in the list: the handler leaves [jobs] and [nextjid]
    as they were and prints nothing. *)
Theorem sigchld_other_signal_keeps_job
    (st : shell) (p termsig : Z) (j : job_t) :
  0 < p -> termsig <> SIGINT ->
  in_bounds (pid2jid st p - 1) = true ->
  jobs st !! Z.to_nat (pid2jid st p - 1) = Some j ->
  sigchld_handler [(p, WSIGNALED termsig)] st
  = ([], Returns tt (set_check_fg st (if state j =? FG then 1 else 0))).
Proof.
  intros Hp Hsig Hin Hj. unfold sigchld_handler, sigchld_loop, sigchld_body.
  destruct (Z.gtb_spec p 0); [|lia].
  unfold read_job. run_proc.
  change (pid2jid (set_check_fg st 0) p) with (pid2jid st p).
  rewrite Hin, Hj. cbn.
  destruct (Z.eqb_spec termsig SIGINT); [done|].
  destruct (state j =? FG); reflexivity.
Qed.

(** ** bg and fg *)

(** C3.  In [shuffled_table] the lookup [getjobjid] resolves handle 3 to
    slot 0, the job of pid 30.  [bg %3] and [fg %3] pass the lookup as
    the existence check and then work on [jobs[3-1]]: the signal goes to
    [-jobs[2].pid], which is 0, the state written is that of the empty
    slot 2, and the job of pid 30 stays stopped. *)
Theorem bgfg_handle_uses_slot_index :
  getjobjid (jobs shuffled_table) 3 = Some 0%nat /\
  jobs shuffled_table !! 0%nat = Some (Job 30 3 ST ("/bin/c" +:+ nl)) /\
  do_bgfg ["bg"; "%3"] [] shuffled_table
  = ([Kill 0 SIGCONT; Printf "[3] (0) "],
     Returns []
       (set_jobs shuffled_table
          (alter (fun j => set_state j BG) 2%nat (jobs shuffled_table)))) /\
  do_bgfg ["fg"; "%3"] [CaughtCHLD []; CaughtCHLD []] shuffled_table
  = ([Kill 0 SIGCONT],
     Returns []
       (set_jobs shuffled_table
          (alter (fun j => set_state j FG) 2%nat (jobs shuffled_table)))).
Proof. repeat split; vm_compute; reflexivity. Qed.

Lemma isdigit_not_percent (d : ascii) :
  isdigit d = true -> is_percent d = false.
Proof.
  unfold isdigit, is_percent.
  change (char_code "0") with 48. change (char_code "9") with 57.
  change (char_code "%") with 37. lia.
Qed.

(** C4.  For an argument that starts with a digit, [do_bgfg] reads the
    number from [argv[1]+1], that is without that first digit, and looks
    this number up as the pid: when no job has it, it is the number in the
    message, and the job list is not touched. *)
Theorem bgfg_pid_skips_first_digit
    (st : shell) (cmd : string) (d : ascii) (rest : string)
    (pending : list delivery) :
  isdigit d = true ->
  INT_MIN <= atoi_value rest <= INT_MAX ->
  getjobpid (jobs st) (atoi_value rest) = None ->
  do_bgfg [cmd; String d rest] pending st
  = ([Printf ("(" +:+ fmt_d (atoi_value rest) +:+ "): No such process"
              +:+ nl)],
     Returns pending st).
Proof.
  intros Hd [Hlo Hhi] Hnone. unfold do_bgfg, atoi. cbn [plus1 char0].
  rewrite Hd, (isdigit_not_percent d Hd).
  destruct (Z.leb_spec INT_MIN (atoi_value rest)); [|lia].
  destruct (Z.leb_spec (atoi_value rest) INT_MAX); [|lia].
  cbn [andb negb]. run_proc. rewrite Hnone.
  rewrite bool_decide_true by done. reflexivity.
Qed.

(** [bg 1234] when the jobs of pid 1234 and of pid 234 are both stopped:
    the job continued is the one of pid 234. *)
Example bg_1234_continues_234 :
  let st := run [Register 1234 ST ("/bin/a" +:+ nl);
                 Register 234 ST ("/bin/b" +:+ nl)] initial_shell in
  do_bgfg ["bg"; "1234"] [] st
  = ([Kill (-234) SIGCONT; Printf ("[2] (234) /bin/b" +:+ nl)],
     Returns []
       (set_jobs st (alter (fun j => set_state j BG) 1%nat (jobs st)))).
Proof. vm_compute. reflexivity. Qed.

(** ** waitfg *)

(** C6.  [waitfg] calls [pause()] at most twice.  With the foreground job
    5 running, the exits of the background jobs 6 and 7 wake it twice,
    each time with [check_fg] left at 0; after the second it returns,
    while job 5 is still the foreground job and its own notification is
    still to come. *)
Theorem waitfg_returns_after_two_wakeups :
  let later := [CaughtCHLD [(5, WEXITED 0)]] in
  exists st',
    waitfg 5 (CaughtCHLD [(6, WEXITED 0)] :: CaughtCHLD [(7, WEXITED 0)] :: later)
      busy_table
    = ([], Returns later st') /\
    check_fg st' = 0 /\
    fgpid (jobs st') = 5 /\
    jobs st' !! 0%nat = Some (Job 5 1 FG ("/bin/sleep 100" +:+ nl)).
Proof.
  eexists. repeat split; vm_compute; reflexivity.
Qed.

(** X15.  Whatever the two handlers do, [waitfg] is back after the second signal
    at the latest: of the pending signals it never takes a third. *)
Lemma waitfg_takes_at_most_two
    (p : Z) (d1 d2 : delivery) (rest pending' : list delivery)
    (st st' : shell) (tr : list event) :
  waitfg p (d1 :: d2 :: rest) st = (tr, Returns pending' st') ->
  pending' = d2 :: rest \/ pending' = rest.
Proof.
  unfold waitfg, pause. run_proc.
  destruct (handle d1 (set_check_fg st 0)) as [tr1 [[] st1| | |]];
    try discriminate.
  destruct (check_fg st1 =? 0).
  - destruct (handle d2 st1) as [tr2 [[] st2| | |]]; try discriminate.
    intros [= _ <- _]. by right.
  - intros [= _ <- _]. by left.
Qed.

(** ** The size of the numbers *)

Lemma maxjid_from_le js m n :
  m <= n -> (forall i j, js !! i = Some j -> jid j <= n) ->
  maxjid_from js m <= n.
Proof.
  revert m. induction js as [|a js IH]; intros m Hm Hall; simpl; [done|].
  apply IH.
  - pose proof (Hall 0%nat a eq_refl). destruct (Z.gtb_spec (jid a) m); lia.
  - intros i j Hj. by apply (Hall (S i)).
Qed.

Lemma handles_within_step n st o :
  0 <= n -> handles_within n st -> handles_within (n + 1) (step st o).
Proof.
  intros Hn [Hnext Hall]. unfold handles_within.
  destruct o as [p s cmd|p]; simpl.
  - destruct (addjob_cases st p s cmd) as [->|(i & Hp & Hi & ->)];
      cbn [jobs nextjid snd].
    + split; [lia|]. intros i j Hj. specialize (Hall i j Hj). lia.
    + pose proof (lowest_slot_lt _ _ _ Hi) as Hlt. split.
      * unfold next_after. case_match; lia.
      * intros k j Hk. destruct (decide (k = i)) as [->|Hne].
        -- rewrite list_lookup_insert_eq in Hk by done. simplify_eq/=. lia.
        -- rewrite list_lookup_insert_ne in Hk by done.
           specialize (Hall k j Hk). lia.
  - destruct (deletejob_cases st p) as [->|(i & Hp & Hi & ->)];
      cbn [jobs nextjid snd].
    + split; [lia|]. intros i j Hj. specialize (Hall i j Hj). lia.
    + assert (forall k j, alter clearjob i (jobs st) !! k = Some j ->
                0 <= jid j <= n) as Hall'.
      { intros k j Hk. destruct (decide (k = i)) as [->|Hne].
        - rewrite list_lookup_alter_eq in Hk.
          destruct (jobs st !! i); simplify_eq/=. lia.
        - rewrite list_lookup_alter_ne in Hk by done. eauto. }
      split.
      * pose proof (maxjid_from_ge (alter clearjob i (jobs st)) 0).
        pose proof (maxjid_from_le (alter clearjob i (jobs st)) 0 n Hn
                      (fun k j Hk => proj2 (Hall' k j Hk))).
        unfold maxjid. lia.
      * intros k j Hk. specialize (Hall' k j Hk). lia.
Qed.

Lemma handles_within_run ops n st :
  0 <= n -> handles_within n st ->
  handles_within (n + Z.of_nat (length ops)) (run ops st).
Proof.
  revert n st. induction ops as [|o ops IH]; intros n st Hn Hst.
  - simpl. by rewrite Z.add_0_r.
  - replace (n + Z.of_nat (length (o :: ops)))
      with ((n + 1) + Z.of_nat (length ops)) by (simpl; lia).
    apply IH; [lia|]. by apply handles_within_step.
Qed.

(** After [n] calls of [addjob] and [deletejob] no handle is above [n] and
    the allocator is at most [n + 1]: the additions of the embedding stay
    far inside the range of [int]. *)
Lemma run_handles_bounded (ops : list op) :
  handles_within (Z.of_nat (length ops)) (run ops initial_shell).
Proof.
  apply (handles_within_run ops 0 initial_shell); [done|].
  split; [done|]. intros i j Hj. apply initial_shell_empty in Hj as ->. done.
Qed.

(** The job list keeps its [MAXJOBS] slots. *)
Lemma run_length (ops : list op) :
  length (jobs (run ops initial_shell)) = Z.to_nat MAXJOBS.
Proof.
  assert (forall st, length (jobs (run ops st)) = length (jobs st)) as H.
  { induction ops as [|o ops IH]; intros st; simpl; [done|].
    rewrite IH. destruct o as [p s cmd|p]; simpl.
    - destruct (addjob_cases st p s cmd) as [->|(i & _ & _ & ->)]; [done|].
      apply length_insert.
    - destruct (deletejob_cases st p) as [->|(i & _ & _ & ->)]; [done|].
      apply length_alter. }
  by rewrite H.
Qed.

(** ** The theorems at concrete inputs *)

Lemma addjob_deletejob_frame_witness :
  jobs (snd (snd (addjob initial_shell 10 BG ("/bin/sleep 5 &" +:+ nl))))
    !! 0%nat
  = Some (Job 10 1 BG ("/bin/sleep 5 &" +:+ nl)) /\
  jobs (snd (deletejob one_job 10)) !! 0%nat = Some (Job 0 0 UNDEF "").
Proof.
  split.
  - apply (proj1 addjob_deletejob_frame initial_shell 10 BG
             ("/bin/sleep 5 &" +:+ nl) 0%nat); [lia|].
    split; [by eexists|]. intros k j Hk. lia.
  - apply (proj1 (proj2 addjob_deletejob_frame) one_job 10 0%nat); [lia|].
    split; [by eexists|]. intros k j Hk. lia.
Defined.

Lemma handle_after_release_witness :
  let st3 := run [Register 10 BG "a"; Register 20 BG "b"; Register 30 BG "c"]
                 initial_shell in
  let st := step st3 (Release 20) in
  let st' := step st (Register 40 BG "d") in
  take 3 (jobs st3) = [Job 10 1 BG "a"; Job 20 2 BG "b"; Job 30 3 BG "c"] /\
  take 3 (jobs st) = [Job 10 1 BG "a"; Job 0 0 UNDEF ""; Job 30 3 BG "c"] /\
  maxjid (jobs st) = 3 /\ nextjid st = 4 /\
  take 3 (jobs st') = [Job 10 1 BG "a"; Job 40 4 BG "d"; Job 30 3 BG "c"] /\
  nextjid st' = 5.
Proof.
  apply (handle_after_release 10 20 30 40 BG BG BG BG "a" "b" "c" "d"); lia.
Defined.

Lemma unique_handles_without_wrap_witness :
  fills_only_unwrapped full_table_ops initial_shell false = true /\
  nextjid (run (take 16 full_table_ops) initial_shell) = 1 /\
  unique_handles (jobs (run full_table_ops initial_shell)).
Proof.
  split; [reflexivity|]. split; [reflexivity|].
  apply (unique_handles_without_wrap full_table_ops full_table_ops []);
    reflexivity.
Defined.

Lemma one_foreground_under_discipline_witness :
  foreground_discipline reuse_ops initial_shell = true /\
  at_most_one_foreground (jobs (run reuse_ops initial_shell)).
Proof.
  split; [reflexivity|].
  apply (one_foreground_under_discipline reuse_ops reuse_ops []);
    reflexivity.
Defined.

Lemma relay_failure_exits_witness :
  sigint_handler (-1) "No such process" sleeping_foreground
  = ([Kill (-5) SIGINT;
      Printf ("kill error" +:+ nl +:+ ": No such process" +:+ nl)],
     Exits 1) /\
  sigtstp_handler (-1) "No such process" sleeping_foreground
  = ([Kill (-5) SIGTSTP;
      Printf ("kill error" +:+ nl +:+ ": No such process" +:+ nl)],
     Exits 1).
Proof.
  apply (relay_failure_exits sleeping_foreground (-1) "No such process"). lia.
Defined.

Lemma relay_without_foreground_witness :
  sigint_handler 0 "" initial_shell
  = ([Kill 0 SIGINT], Returns tt initial_shell) /\
  sigtstp_handler 0 "" initial_shell = ([Kill 0 SIGTSTP], Undefined).
Proof.
  apply (relay_without_foreground initial_shell 0 ""); [|lia].
  apply (bool_decide_unpack _). vm_compute. exact I.
Defined.

Lemma sigchld_other_signal_keeps_job_witness :
  sigchld_handler [(10, WSIGNALED 9)] one_job
  = ([], Returns tt (set_check_fg one_job 0)) /\
  jobs (set_check_fg one_job 0) !! 0%nat
  = Some (Job 10 1 BG ("/bin/sleep 5 &" +:+ nl)).
Proof.
  split; [|reflexivity].
  apply (sigchld_other_signal_keeps_job one_job 10 9
           (Job 10 1 BG ("/bin/sleep 5 &" +:+ nl)));
    [lia|discriminate|reflexivity|reflexivity].
Defined.

Lemma bgfg_pid_skips_first_digit_witness :
  getjobpid (jobs stopped_1234) 1234 = Some 0%nat /\
  do_bgfg ["bg"; "1234"] [] stopped_1234
  = ([Printf ("(234): No such process" +:+ nl)], Returns [] stopped_1234).
Proof.
  split; [reflexivity|].
  apply (bgfg_pid_skips_first_digit stopped_1234 "bg" "1" "234" []);
    [reflexivity|vm_compute; split; discriminate|reflexivity].
Defined.

(** * Further properties of the job list *)

(** X1.  [maxjid] is an upper bound of the handles in the list, it is not
    negative, and unless it is 0 some slot holds it. *)
Theorem maxjid_spec (js : list job_t) :
  (forall i j, js !! i = Some j -> jid j <= maxjid js) /\
  0 <= maxjid js /\
  (maxjid js = 0 \/ exists i j, js !! i = Some j /\ jid j = maxjid js).
Proof.
  split; [apply maxjid_lookup|]. split; [apply maxjid_from_ge|].
  unfold maxjid.
  assert (forall m, maxjid_from js m = m \/
            exists i j, js !! i = Some j /\ jid j = maxjid_from js m) as H.
  { induction js as [|a js IH]; intros m; simpl; [by left|].
    destruct (IH (if jid a >? m then jid a else m)) as [E|(i & j & Hj & E)].
    - rewrite E. destruct (Z.gtb_spec (jid a) m); [|by left].
      right. by exists 0%nat, a.
    - right. by exists (S i), j. }
  apply H.
Qed.

(** X2.  [getjobpid] and [getjobjid] return the lowest-indexed slot that holds
    the pid or the handle asked for, and nothing for an id below 1: an
    empty slot, whose pid and handle are 0, is never returned. *)
Theorem getjob_lowest_match (js : list job_t) (n : Z) (i : nat) :
  (getjobpid js n = Some i <->
     1 <= n /\ lowest_slot (fun j => pid j =? n) js i) /\
  (getjobjid js n = Some i <->
     1 <= n /\ lowest_slot (fun j => jid j =? n) js i).
Proof.
  assert (forall test,
    fst <$> first_slot test js 0 = Some i <-> lowest_slot test js i) as H.
  { intros test. split.
    - destruct (first_slot test js 0) as [[k j]|] eqn:E; [|done].
      intros [= <-]. by apply first_slot_lowest in E as [_ ?].
    - intros Hlow. apply lowest_slot_first in Hlow as (j & _ & ->). done. }
  unfold getjobpid, getjobjid.
  destruct (Z.ltb_spec n 1); split; rewrite ?H; split;
    try done; try (intros [? _]; lia); try (intros [_ ?]; done);
    by (intros; split; [lia|]).
Qed.

Lemma addjob_then_lookup_aux
    (st : shell) (p s : Z) (cmd : string) (i : nat) :
  1 <= p ->
  (forall k j, jobs st !! k = Some j -> pid j <> p) ->
  lowest_slot empty_slot (jobs st) i ->
  let st' := snd (snd (addjob st p s cmd)) in
  getjobpid (jobs st') p = Some i /\
  jobs st' !! i = Some (Job p (nextjid st) s cmd) /\
  pid2jid st' p = nextjid st.
Proof.
  intros Hp Hfresh Hi st'. subst st'.
  rewrite (addjob_fills _ _ _ _ _ Hp Hi). cbn [snd jobs].
  pose proof (lowest_slot_lt _ _ _ Hi) as Hlt.
  assert (first_slot (fun j => pid j =? p)
            (<[i := Job p (nextjid st) s cmd]> (jobs st)) 0
          = Some (i, Job p (nextjid st) s cmd)) as Hfound.
  { apply first_slot_lowest. split; [by apply list_lookup_insert_eq|].
    split.
    - eexists. split; [by apply list_lookup_insert_eq|]. simpl. lia.
    - intros k j Hk Hj. rewrite list_lookup_insert_ne in Hj by lia.
      apply Z.eqb_neq. eauto. }
  unfold getjobpid, pid2jid. cbn [jobs].
  destruct (Z.ltb_spec p 1); [lia|]. rewrite Hfound.
  repeat split. by apply list_lookup_insert_eq.
Qed.

(** X3.  A job registered under a pid that no slot holds is found again under
    that pid, in the slot that was the lowest empty one, and its handle is
    the value the allocator had. *)
Theorem addjob_then_lookup
    (st : shell) (p s : Z) (cmd : string) (i : nat) :
  1 <= p ->
  (forall k j, jobs st !! k = Some j -> pid j <> p) ->
  lowest_slot empty_slot (jobs st) i ->
  let st' := snd (snd (addjob st p s cmd)) in
  getjobpid (jobs st') p = Some i /\
  jobs st' !! i = Some (Job p (nextjid st) s cmd) /\
  pid2jid st' p = nextjid st.
Proof. apply addjob_then_lookup_aux. Qed.

(** X4.  When one slot at most holds the pid, a released job is not found any
    more: [getjobpid] returns NULL and [pid2jid] returns 0. *)
Theorem deletejob_then_lookup (st : shell) (p : Z) :
  (forall i k ji jk, jobs st !! i = Some ji -> jobs st !! k = Some jk ->
     pid ji = p -> pid jk = p -> i = k) ->
  let st' := snd (deletejob st p) in
  getjobpid (jobs st') p = None /\ pid2jid st' p = 0.
Proof.
  intros Hone st'. subst st'. unfold getjobpid, pid2jid.
  destruct (Z.ltb_spec p 1) as [|Hp]; [done|].
  assert (first_slot (fun j => pid j =? p) (jobs (snd (deletejob st p))) 0
          = None) as ->; [|done].
  apply first_slot_None. intros k j Hk. apply Z.eqb_neq. intros Hpid.
  destruct (deletejob_cases st p) as [E|(i & _ & Hi & E)];
    rewrite E in Hk; cbn [snd jobs] in Hk.
  - unfold deletejob in E. destruct (Z.ltb_spec p 1); [lia|].
    destruct (first_slot (fun j => pid j =? p) (jobs st) 0)
      as [[i' j']|] eqn:Hf; [done|].
    rewrite first_slot_None in Hf. specialize (Hf k j Hk). lia.
  - apply alter_clearjob_live in Hk as [Hne Hk]; [|lia].
    destruct Hi as [(ji & Hji & Hpi) _]. apply Z.eqb_eq in Hpi.
    by destruct Hne, (Hone k i j ji).
Qed.

(** X5.  [addjob] returns 1 exactly when the pid is at least 1 and some slot is
    empty.  With a valid pid and no empty slot it prints one line and
    leaves the shell as it was. *)
Theorem addjob_succeeds_iff (st : shell) (p s : Z) (cmd : string) :
  (fst (snd (addjob st p s cmd)) = 1 <->
     1 <= p /\ exists i j, jobs st !! i = Some j /\ pid j = 0) /\
  (1 <= p -> (forall i j, jobs st !! i = Some j -> pid j <> 0) ->
     addjob st p s cmd
     = ([Printf ("Tried to create too many jobs" +:+ nl)], (0, st))).
Proof.
  split.
  - split.
    + intros Hret.
      destruct (addjob_cases st p s cmd) as [E|(i & Hp & Hi & E)];
        rewrite E in Hret; [done|].
      split; [done|]. destruct Hi as [(j & Hj & He) _].
      apply Z.eqb_eq in He. eauto.
    + intros [Hp (i & j & Hj & He)].
      destruct (first_slot empty_slot (jobs st) 0) as [[k jk]|] eqn:E.
      * apply first_slot_lowest in E as [_ Hlow].
        by rewrite (addjob_fills _ _ _ _ _ Hp Hlow).
      * rewrite first_slot_None in E. specialize (E i j Hj).
        unfold empty_slot in E. lia.
  - intros Hp Hfull. unfold addjob.
    destruct (Z.ltb_spec p 1); [lia|].
    assert (first_slot (fun j => pid j =? 0) (jobs st) 0 = None) as ->;
      [|done].
    apply first_slot_None. intros i j Hj. apply Z.eqb_neq. eauto.
Qed.

(** X6.  After [initjobs] nothing is found in the list, whatever it held. *)
Theorem initjobs_empties (js : list job_t) (n : Z) :
  length (initjobs js) = length js /\
  getjobpid (initjobs js) n = None /\
  getjobjid (initjobs js) n = None /\
  fgpid (initjobs js) = 0 /\
  maxjid (initjobs js) = 0.
Proof.
  assert (forall i j, initjobs js !! i = Some j -> j = Job 0 0 UNDEF "")
    as Hall.
  { intros i j. unfold initjobs. rewrite list_lookup_fmap.
    destruct (js !! i); by intros [= <-]. }
  split; [apply length_map|].
  assert (forall test, (forall j, j = Job 0 0 UNDEF "" -> test j = false) ->
            first_slot test (initjobs js) 0 = None) as Hnone.
  { intros test Ht. apply first_slot_None. intros i j Hj. eauto. }
  unfold getjobpid, getjobjid, fgpid.
  repeat split.
  - destruct (Z.ltb_spec n 1); [done|]. rewrite Hnone; [done|].
    intros j ->. apply Z.eqb_neq. cbn [pid]. lia.
  - destruct (Z.ltb_spec n 1); [done|]. rewrite Hnone; [done|].
    intros j ->. apply Z.eqb_neq. cbn [jid]. lia.
  - rewrite Hnone; [done|]. by intros j ->.
  - clear. unfold maxjid. induction js as [|a js IH]; [done|]. exact IH.
Qed.

Lemma table_wellformed_step st o :
  table_wellformed st -> table_wellformed (step st o).
Proof.
  intros [Hnext Hall]. unfold table_wellformed.
  destruct o as [p s cmd|p]; simpl.
  - destruct (addjob_cases st p s cmd) as [->|(i & Hp & Hi & ->)];
      cbn [jobs nextjid snd]; [done|].
    pose proof (lowest_slot_lt _ _ _ Hi) as Hlt. split.
    + unfold next_after. case_match; lia.
    + intros k j Hk. destruct (decide (k = i)) as [->|Hne].
      * rewrite list_lookup_insert_eq in Hk by done. simplify_eq/=.
        right. simpl. lia.
      * rewrite list_lookup_insert_ne in Hk by done. eauto.
  - destruct (deletejob_cases st p) as [->|(i & Hp & Hi & ->)];
      cbn [jobs nextjid snd]; [done|].
    split.
    + pose proof (maxjid_from_ge (alter clearjob i (jobs st)) 0).
      unfold maxjid. lia.
    + intros k j Hk. destruct (decide (k = i)) as [->|Hne].
      * rewrite list_lookup_alter_eq in Hk.
        destruct (jobs st !! i); simplify_eq/=. by left.
      * rewrite list_lookup_alter_ne in Hk by done. eauto.
Qed.

Lemma table_wellformed_run ops st :
  table_wellformed st -> table_wellformed (run ops st).
Proof.
  revert st. induction ops as [|o ops IH]; intros st Hst; [done|].
  simpl. by apply IH, table_wellformed_step.
Qed.

Lemma table_wellformed_initial : table_wellformed initial_shell.
Proof.
  split; [done|]. intros i j Hj. apply initial_shell_empty in Hj. by left.
Qed.

(** X7.  Whatever jobs were registered and released since the start of the
    shell, every slot of the list is either cleared (pid 0, handle 0, state
    UNDEF, empty command line) or holds a job whose pid and handle are at
    least 1, and the allocator is at least 1. *)
Theorem run_slots_wellformed (ops : list op) (i : nat) (j : job_t) :
  jobs (run ops initial_shell) !! i = Some j ->
  1 <= nextjid (run ops initial_shell) /\
  (j = Job 0 0 UNDEF "" \/ (1 <= pid j /\ 1 <= jid j)).
Proof.
  intros Hj.
  destruct (table_wellformed_run ops _ table_wellformed_initial)
    as [Hnext Hall].
  split; [done|]. by apply (Hall i).
Qed.

(** X8.  On a list built by [addjob] and [deletejob], the 0 of [pid2jid] is
    not ambiguous: it is returned exactly when [getjobpid] finds no job. *)
Theorem pid2jid_zero_iff (ops : list op) (p : Z) :
  let st := run ops initial_shell in
  pid2jid st p = 0 <-> getjobpid (jobs st) p = None.
Proof.
  intros st.
  destruct (table_wellformed_run ops _ table_wellformed_initial)
    as [_ Hall]. fold st in Hall.
  unfold pid2jid, getjobpid.
  destruct (Z.ltb_spec p 1) as [|Hp]; [done|].
  destruct (first_slot (fun j => pid j =? p) (jobs st) 0)
    as [[i j]|] eqn:E; [|done].
  apply first_slot_lowest in E as (Hj & (j' & Hj' & Hpid) & _).
  assert (j' = j) as -> by congruence. apply Z.eqb_eq in Hpid.
  destruct (Hall i j Hj) as [->|[_ Hjid]]; simpl in *; [lia|].
  split; [lia|done].
Qed.

(** X9.  On a list built by [addjob] and [deletejob], [fgpid] returns 0
    exactly when no slot is in state FG, and otherwise the pid of a slot
    in state FG. *)
Theorem fgpid_spec (ops : list op) :
  let js := jobs (run ops initial_shell) in
  (fgpid js = 0 <-> forall i j, js !! i = Some j -> state j <> FG) /\
  (fgpid js <> 0 ->
     exists i j, js !! i = Some j /\ state j = FG /\ pid j = fgpid js).
Proof.
  intros js.
  destruct (table_wellformed_run ops _ table_wellformed_initial)
    as [_ Hall]. fold js in Hall.
  assert (forall i j, js !! i = Some j -> state j = FG -> pid j <> 0)
    as Hlive.
  { intros i j Hj Hfg. destruct (Hall i j Hj) as [->|[? _]]; [done|lia]. }
  split; [split|].
  - intros Hz. by apply fgpid_zero.
  - intros Hnone. apply fgpid_none, Forall_lookup. exact Hnone.
  - unfold fgpid.
    destruct (first_slot (fun j => state j =? FG) js 0) as [[i j]|] eqn:E;
      [|done].
    intros _. apply first_slot_lowest in E as (Hj & (j' & Hj' & Hfg) & _).
    assert (j' = j) as -> by congruence. apply Z.eqb_eq in Hfg.
    by exists i, j.
Qed.

(** * Further properties of the signal handlers *)

Lemma deletejob_set_check_fg st c p :
  deletejob (set_check_fg st c) p
  = (fst (deletejob st p), set_check_fg (snd (deletejob st p)) c).
Proof.
  unfold deletejob, set_check_fg. cbn [jobs verbose check_fg nextjid].
  destruct (p <? 1); [done|].
  by destruct (first_slot (fun j => pid j =? p) (jobs st) 0) as [[i j]|].
Qed.

Lemma set_check_fg_twice st c c' :
  set_check_fg (set_check_fg st c) c' = set_check_fg st c'.
Proof. done. Qed.

Lemma sigchld_reaps_aux (st : shell) (p code : Z) (j : job_t) :
  0 < p ->
  in_bounds (pid2jid st p - 1) = true ->
  jobs st !! Z.to_nat (pid2jid st p - 1) = Some j ->
  let st' := set_check_fg (snd (deletejob st p)) (flag_for j) in
  sigchld_handler [(p, WEXITED code)] st = ([], Returns tt st') /\
  sigchld_handler [(p, WSIGNALED SIGINT)] st
  = ([Printf ("job [" +:+ fmt_d (pid2jid st p) +:+ "] (" +:+ fmt_d p
              +:+ ") terminated by signal 2" +:+ nl)],
     Returns tt st').
Proof.
  intros Hp Hin Hj st'. subst st'.
  unfold sigchld_handler, sigchld_loop, sigchld_body, flag_for.
  destruct (Z.gtb_spec p 0); [|lia].
  unfold read_job. run_proc.
  change (pid2jid (set_check_fg st 0) p) with (pid2jid st p).
  rewrite Hin, Hj. cbn.
  destruct (state j =? FG); cbn;
    rewrite ?set_check_fg_twice, deletejob_set_check_fg; done.
Qed.

(** X10.  A child that exited, or that SIGINT killed, has its job released by
    [deletejob]; for SIGINT the handler then prints the notice, with the
    handle the job had.  [check_fg] is left at 1 when [jobs[jid-1]] is in
    state FG and at 0 otherwise. *)
Theorem sigchld_handler_reaps
    (st : shell) (p code : Z) (j : job_t) :
  0 < p ->
  in_bounds (pid2jid st p - 1) = true ->
  jobs st !! Z.to_nat (pid2jid st p - 1) = Some j ->
  let st' := set_check_fg (snd (deletejob st p)) (flag_for j) in
  sigchld_handler [(p, WEXITED code)] st = ([], Returns tt st') /\
  sigchld_handler [(p, WSIGNALED SIGINT)] st
  = ([Printf ("job [" +:+ fmt_d (pid2jid st p) +:+ "] (" +:+ fmt_d p
              +:+ ") terminated by signal 2" +:+ nl)],
     Returns tt st').
Proof. apply sigchld_reaps_aux. Qed.

Lemma getjobpid_lt (js : list job_t) p i :
  getjobpid js p = Some i -> (i < length js)%nat.
Proof.
  unfold getjobpid. destruct (p <? 1); [done|].
  destruct (first_slot (fun j => pid j =? p) js 0) as [[k j]|] eqn:E; [|done].
  intros [= <-]. apply first_slot_lowest in E as [Hj _].
  by eapply lookup_lt_Some.
Qed.

Lemma sigchld_stops_aux
    (st : shell) (p stopsig : Z) (j : job_t) (i : nat) :
  0 < p ->
  length (jobs st) = Z.to_nat MAXJOBS ->
  in_bounds (pid2jid st p - 1) = true ->
  jobs st !! Z.to_nat (pid2jid st p - 1) = Some j ->
  getjobpid (jobs st) p = Some i ->
  sigchld_handler [(p, WSTOPPED stopsig)] st
  = ([Printf ("job [" +:+ fmt_d (pid2jid st p) +:+ "] (" +:+ fmt_d p
              +:+ ") stopped by signal 20" +:+ nl)],
     Returns tt
       (set_check_fg
          (set_jobs st (alter (fun j => set_state j ST) i (jobs st)))
          (flag_for j))).
Proof.
  intros Hp Hlen Hin Hj Hi. pose proof (getjobpid_lt _ _ _ Hi) as Hlt.
  unfold sigchld_handler, sigchld_loop, sigchld_body, flag_for.
  destruct (Z.gtb_spec p 0); [|lia].
  unfold read_job, write_state. run_proc.
  change (pid2jid (set_check_fg st 0) p) with (pid2jid st p).
  rewrite Hin, Hj. cbn.
  assert (in_bounds (Z.of_nat i) = true) as Hib.
  { unfold in_bounds, MAXJOBS in *. rewrite Hlen in Hlt. lia. }
  destruct (state j =? FG); cbn; rewrite Hi; cbn; rewrite Hib, Nat2Z.id;
    rewrite bool_decide_true by done; reflexivity.
Qed.

(** X11.  A child that was stopped keeps its job: the handler sets the state of
    the slot [getjobpid] finds to ST and prints the notice, which names
    signal 20 (SIGTSTP) whatever signal stopped the child. *)
Theorem sigchld_handler_stops
    (st : shell) (p stopsig : Z) (j : job_t) (i : nat) :
  0 < p ->
  length (jobs st) = Z.to_nat MAXJOBS ->
  in_bounds (pid2jid st p - 1) = true ->
  jobs st !! Z.to_nat (pid2jid st p - 1) = Some j ->
  getjobpid (jobs st) p = Some i ->
  sigchld_handler [(p, WSTOPPED stopsig)] st
  = ([Printf ("job [" +:+ fmt_d (pid2jid st p) +:+ "] (" +:+ fmt_d p
              +:+ ") stopped by signal 20" +:+ nl)],
     Returns tt
       (set_check_fg
          (set_jobs st (alter (fun j => set_state j ST) i (jobs st)))
          (flag_for j))).
Proof. apply sigchld_stops_aux. Qed.

(** X12.  A reaped child whose pid is in no slot (a job that [addjob] could not
    register, for one) makes the handler read [jobs[pid2jid(pid)-1]], that
    is [jobs[-1]]: nothing defined follows, whatever the status and
    whatever is still to be reaped. *)
Theorem sigchld_handler_unknown_pid
    (st : shell) (p : Z) (status : wstatus) (rest : list (Z * wstatus)) :
  0 < p -> getjobpid (jobs st) p = None ->
  sigchld_handler ((p, status) :: rest) st = ([], Undefined).
Proof.
  intros Hp Hnone. unfold sigchld_handler, sigchld_loop, sigchld_body.
  destruct (Z.gtb_spec p 0); [|lia].
  assert (pid2jid (set_check_fg st 0) p = 0) as Hz.
  { unfold pid2jid, getjobpid in *. cbn [jobs set_check_fg].
    destruct (p <? 1); [done|].
    by destruct (first_slot (fun j => pid j =? p) (jobs st) 0). }
  unfold read_job. run_proc. rewrite Hz. reflexivity.
Qed.

Lemma sigchld_body_exit (st : shell) (p code : Z) (j : job_t) :
  in_bounds (pid2jid st p - 1) = true ->
  jobs st !! Z.to_nat (pid2jid st p - 1) = Some j ->
  sigchld_body p (WEXITED code) st
  = ([], Returns tt
           (set_check_fg (snd (deletejob st p))
              (if state j =? FG then 1 else check_fg st))).
Proof.
  intros Hin Hj. unfold sigchld_body, read_job. run_proc.
  rewrite Hin, Hj. cbn.
  destruct (state j =? FG); cbn.
  - by rewrite deletejob_set_check_fg.
  - by destruct st, (deletejob _ p) as [r []] eqn:E;
      unfold deletejob in E; cbn in E;
      repeat case_match; simplify_eq.
Qed.

(** X13.  One run of the handler reaps every child [waitpid] reports, and
    [check_fg], cleared once before the loop and never in it, keeps what an
    earlier child has set.  For two children that exited: both jobs are
    released, the second one looked up in the list as the first release
    left it, and [check_fg] ends at 1 as soon as the slot [jobs[jid-1]] read
    for either of them was in state FG; a background child reaped after
    the foreground child does not hide the exit of the foreground child. *)
Theorem sigchld_handler_reaps_two
    (st : shell) (p q code code' : Z) (j1 j2 : job_t) :
  0 < p -> 0 < q ->
  in_bounds (pid2jid st p - 1) = true ->
  jobs st !! Z.to_nat (pid2jid st p - 1) = Some j1 ->
  let st1 := snd (deletejob st p) in
  in_bounds (pid2jid st1 q - 1) = true ->
  jobs st1 !! Z.to_nat (pid2jid st1 q - 1) = Some j2 ->
  sigchld_handler [(p, WEXITED code); (q, WEXITED code')] st
  = ([], Returns tt
           (set_check_fg (snd (deletejob st1 q))
              (Z.max (flag_for j1) (flag_for j2)))).
Proof.
  intros Hp Hq Hin1 Hj1 st1 Hin2 Hj2.
  unfold sigchld_handler, sigchld_loop.
  destruct (Z.gtb_spec p 0); [|lia]. destruct (Z.gtb_spec q 0); [|lia].
  pose proof (sigchld_body_exit (set_check_fg st 0) p code j1 Hin1 Hj1)
    as H1.
  rewrite deletejob_set_check_fg in H1. cbn [snd check_fg set_check_fg] in H1.
  rewrite set_check_fg_twice in H1. fold st1 in H1.
  pose proof (sigchld_body_exit
                (set_check_fg st1 (if state j1 =? FG then 1 else 0))
                q code' j2 Hin2 Hj2) as H2.
  rewrite deletejob_set_check_fg in H2. cbn [snd check_fg set_check_fg] in H2.
  rewrite set_check_fg_twice in H2.
  run_proc. rewrite H1, H2. cbn. unfold flag_for.
  by destruct (state j1 =? FG), (state j2 =? FG).
Qed.

(** * Further properties of waitfg *)

Lemma waitfg_released_aux
    (st : shell) (p q code : Z) (j : job_t) (rest : list delivery) :
  0 < p ->
  in_bounds (pid2jid st p - 1) = true ->
  jobs st !! Z.to_nat (pid2jid st p - 1) = Some j ->
  state j = FG ->
  waitfg q (CaughtCHLD [(p, WEXITED code)] :: rest) st
  = ([], Returns rest (set_check_fg (snd (deletejob st p)) 1)).
Proof.
  intros Hp Hin Hj Hfg.
  destruct (sigchld_reaps_aux (set_check_fg st 0) p code j Hp Hin Hj)
    as [Hexit _].
  unfold waitfg, pause, handle. run_proc.
  unfold mbind, proc_mbind, proc_bind in Hexit. rewrite Hexit.
  unfold flag_for. rewrite Hfg. cbn.
  by rewrite deletejob_set_check_fg.
Qed.

Lemma waitfg_not_released_aux
    (st : shell) (p q code : Z) (j : job_t) (rest : list delivery) :
  0 < p ->
  in_bounds (pid2jid st p - 1) = true ->
  jobs st !! Z.to_nat (pid2jid st p - 1) = Some j ->
  state j <> FG ->
  waitfg q (CaughtCHLD [(p, WEXITED code)] :: rest) st
  = pause rest (set_check_fg (snd (deletejob st p)) 0).
Proof.
  intros Hp Hin Hj Hfg.
  destruct (sigchld_reaps_aux (set_check_fg st 0) p code j Hp Hin Hj)
    as [Hexit _].
  unfold waitfg. cbn [pause]. unfold handle. run_proc.
  rewrite Hexit. unfold flag_for. apply Z.eqb_neq in Hfg. rewrite Hfg. cbn.
  rewrite deletejob_set_check_fg. cbn [snd].
  by destruct (pause rest _) as [tr [a s| | |]].
Qed.

(** X14.  [waitfg] when the SIGCHLD for the exit of one child [p] is the
    signal caught in its first [pause()].  The handler releases the job of
    [p] and sets [check_fg] by the state of the slot [jobs[pid2jid(p)-1]],
    which is the slot of [p] only where the handle of [p] is its slot
    number plus one.  When that slot is in state FG, [waitfg] returns at
    this first wake-up and the signals still to come are left for later.
    When it is not, be [p] the foreground job or not, [waitfg] goes into
    its second [pause()] and needs one more signal.  The pid that [waitfg]
    was called with plays no part. *)
Theorem waitfg_released_by_exit
    (st : shell) (p q code : Z) (j : job_t) (rest : list delivery) :
  0 < p ->
  in_bounds (pid2jid st p - 1) = true ->
  jobs st !! Z.to_nat (pid2jid st p - 1) = Some j ->
  let released := snd (deletejob st p) in
  (state j = FG ->
   waitfg q (CaughtCHLD [(p, WEXITED code)] :: rest) st
   = ([], Returns rest (set_check_fg released 1))) /\
  (state j <> FG ->
   waitfg q (CaughtCHLD [(p, WEXITED code)] :: rest) st
   = pause rest (set_check_fg released 0)).
Proof.
  intros Hp Hin Hj released. split; intros Hfg.
  - by apply (waitfg_released_aux st p q code j).
  - by apply (waitfg_not_released_aux st p q code j).
Qed.

(** * Further properties of bg and fg *)

(** X16.  The errors of [do_bgfg] that come before any lookup by pid: a missing
    argument, an argument that starts neither with a digit nor with a
    percent sign, and a handle that no slot holds.  Each prints its one
    line, sends no signal and leaves the shell as it was. *)
Theorem do_bgfg_rejects
    (st : shell) (cmd a1 : string) (more : list string)
    (pending : list delivery) :
  INT_MIN <= atoi_value (plus1 a1) <= INT_MAX ->
  do_bgfg [cmd] pending st
  = ([Printf (cmd +:+ " requires PID or %jobid argument" +:+ nl)],
     Returns pending st) /\
  (isdigit (char0 a1) = false -> is_percent (char0 a1) = false ->
   do_bgfg (cmd :: a1 :: more) pending st
   = ([Printf (cmd +:+ ": argument must be a PID or %jobid" +:+ nl)],
      Returns pending st)) /\
  (is_percent (char0 a1) = true ->
   getjobjid (jobs st) (atoi_value (plus1 a1)) = None ->
   do_bgfg (cmd :: a1 :: more) pending st
   = ([Printf ("%" +:+ fmt_d (atoi_value (plus1 a1)) +:+ ": No such job"
               +:+ nl)],
      Returns pending st)).
Proof.
  intros [Hlo Hhi]. split; [done|].
  unfold do_bgfg, atoi.
  destruct (Z.leb_spec INT_MIN (atoi_value (plus1 a1))); [|lia].
  destruct (Z.leb_spec (atoi_value (plus1 a1)) INT_MAX); [|lia].
  split.
  - intros -> ->. reflexivity.
  - intros Hpc Hnone. rewrite Hpc. rewrite andb_false_r.
    run_proc. rewrite Hnone. rewrite bool_decide_true by done. reflexivity.
Qed.

Lemma getjobjid_found (js : list job_t) (n : Z) (i : nat) (j : job_t) :
  1 <= n -> js !! i = Some j -> jid j = n -> getjobjid js n <> None.
Proof.
  intros Hn Hj Hjid. unfold getjobjid. destruct (Z.ltb_spec n 1); [lia|].
  destruct (first_slot (fun j => jid j =? n) js 0) as [[k jk]|] eqn:E;
    [done|].
  rewrite first_slot_None in E. specialize (E i j Hj). simpl in E. lia.
Qed.

(** X17.  [bg %n] and [fg %n] when slot [n-1] holds the job of handle [n]: the
    job's process group gets SIGCONT and the job's state becomes BG or FG;
    [bg] prints the job, [fg] goes on to [waitfg]. *)
Theorem bgfg_handle_in_its_slot
    (st : shell) (a1 : string) (n : Z) (j : job_t)
    (pending : list delivery) :
  is_percent (char0 a1) = true ->
  atoi_value (plus1 a1) = n ->
  1 <= n <= MAXJOBS ->
  jobs st !! Z.to_nat (n - 1) = Some j ->
  jid j = n ->
  let continued s :=
    set_jobs st (alter (fun j => set_state j s) (Z.to_nat (n - 1)) (jobs st))
  in
  do_bgfg ["bg"; a1] pending st
  = ([Kill (- pid j) SIGCONT;
      Printf ("[" +:+ fmt_d n +:+ "] (" +:+ fmt_d (pid j) +:+ ") "
              +:+ cmdline j)],
     Returns pending (continued BG)) /\
  do_bgfg ["fg"; a1] pending st
  = (Kill (- pid j) SIGCONT :: fst (waitfg (pid j) pending (continued FG)),
     snd (waitfg (pid j) pending (continued FG))).
Proof.
  intros Hpc Hn Hrange Hj Hjid continued. subst continued.
  pose proof (lookup_lt_Some _ _ _ Hj) as Hlt.
  pose proof (getjobjid_found (jobs st) n _ j (proj1 Hrange) Hj Hjid) as Hf.
  assert (in_bounds (n - 1) = true) as Hib.
  { unfold in_bounds, MAXJOBS in *. lia. }
  assert (INT_MIN <= n <= INT_MAX) as [Hlo Hhi].
  { unfold INT_MIN, INT_MAX, MAXJOBS in *. lia. }
  assert (isdigit (char0 a1) = false) as Hnd.
  { destruct (isdigit (char0 a1)) eqn:E; [|done].
    apply isdigit_not_percent in E. congruence. }
  unfold do_bgfg, do_bg, do_fg, atoi, read_job, write_state.
  rewrite Hn, Hpc, Hnd.
  destruct (Z.leb_spec INT_MIN n); [|lia].
  destruct (Z.leb_spec n INT_MAX); [|lia].
  cbn [andb negb]. run_proc.
  rewrite bool_decide_false by done. rewrite Hib, Hj. cbn.
  rewrite ?Hj. cbn. rewrite bool_decide_true by done. cbn.
  rewrite list_lookup_alter_eq, Hj. cbn.
  split; [reflexivity|].
  destruct (waitfg (pid j) pending _) as [tr [a st'| | |]]; reflexivity.
Qed.

(** * atoi reads what printf writes *)

Lemma digits_value_acc s acc :
  all_digits s = true ->
  digits_value s acc
  = acc * 10 ^ Z.of_nat (String.length s) + digits_value s 0.
Proof.
  revert acc. induction s as [|c s IH]; intros acc Hs.
  - simpl. lia.
  - cbn [all_digits] in Hs. apply andb_true_iff in Hs as [Hc Hs].
    cbn [digits_value String.length]. rewrite Hc.
    rewrite (IH (10 * acc + _)), (IH (10 * 0 + _)) by done.
    rewrite Nat2Z.inj_succ, Z.pow_succ_r by lia. lia.
Qed.

Lemma pretty_N_char_digit (d : N) :
  (d < 10)%N ->
  isdigit (pretty_N_char d) = true /\
  char_code (pretty_N_char d) - char_code "0" = Z.of_N d.
Proof.
  intros Hd.
  assert (d = 0 \/ d = 1 \/ d = 2 \/ d = 3 \/ d = 4 \/ d = 5 \/ d = 6
          \/ d = 7 \/ d = 8 \/ d = 9)%N as H by lia.
  repeat (destruct H as [->|H]; [by vm_compute|]). by subst.
Qed.

Lemma digits_value_pretty_N_go (x : N) (s : string) :
  all_digits s = true ->
  all_digits (pretty_N_go x s) = true /\
  digits_value (pretty_N_go x s) 0
  = Z.of_N x * 10 ^ Z.of_nat (String.length s) + digits_value s 0.
Proof.
  revert s. induction (N.lt_wf_0 x) as [x _ IH]; intros s Hs.
  assert (x = 0 \/ 0 < x)%N as [->|Hx] by lia.
  { rewrite pretty_N_go_0. split; [done|]. lia. }
  rewrite pretty_N_go_step by done.
  destruct (pretty_N_char_digit (x `mod` 10)%N) as [Hd Hv].
  { by apply N.mod_lt. }
  destruct (IH (x `div` 10)%N) with (s := String (pretty_N_char (x `mod` 10)) s)
    as [Hall Hval].
  { by apply N.div_lt. }
  { cbn [all_digits]. by rewrite Hd, Hs. }
  split; [done|]. rewrite Hval.
  cbn [digits_value String.length]. rewrite Hd, Hv.
  rewrite (digits_value_acc s) by done.
  rewrite Nat2Z.inj_succ, Z.pow_succ_r by lia.
  rewrite (N.div_mod x 10) at 3 by done.
  rewrite N2Z.inj_add, N2Z.inj_mul. simpl Z.of_N at 3. lia.
Qed.

Lemma atoi_value_digits (c : ascii) (rest : string) :
  isdigit c = true ->
  atoi_value (String c rest) = digits_value (String c rest) 0.
Proof.
  intros Hc. destruct c as [[] [] [] [] [] [] [] []];
    try (vm_compute in Hc; discriminate); reflexivity.
Qed.

(** X18.  What [printf] writes for a [%d], [atoi] reads back as the same
    number. *)
Theorem atoi_value_fmt_d (z : Z) : atoi_value (fmt_d z) = z.
Proof.
  assert (forall p : positive,
    atoi_value (pretty (N.pos p)) = Z.pos p /\
    digits_value (pretty (N.pos p)) 0 = Z.pos p) as Hpos.
  { intros p. unfold pretty, pretty_N.
    rewrite decide_False by done.
    destruct (digits_value_pretty_N_go (N.pos p) "" eq_refl) as [Hall Hval].
    simpl in Hval. rewrite Z.mul_1_r, Z.add_0_r in Hval.
    destruct (pretty_N_go (N.pos p) "") as [|c rest] eqn:E.
    { simpl in Hval. lia. }
    cbn [all_digits] in Hall. apply andb_true_iff in Hall as [Hc _].
    by rewrite atoi_value_digits. }
  unfold fmt_d. destruct z as [|p|p]; [done|apply Hpos|].
  change (pretty (Z.neg p)) with (String "-" (pretty (N.pos p))).
  unfold atoi_value. cbn [skip_spaces]. change (isspace "-") with false.
  cbn iota. rewrite (proj2 (Hpos p)). done.
Qed.

(** * parseline *)

Lemma app_length_string (s t : string) :
  String.length (s +:+ t) = (String.length s + String.length t)%nat.
Proof. induction s as [|c s IH]; simpl; [done|]. by rewrite IH. Qed.

Lemma blank_last_app (s : string) (c : ascii) :
  blank_last (s +:+ String c EmptyString) = s +:+ String " " EmptyString.
Proof.
  induction s as [|a s IH]; [done|].
  destruct s as [|b s]; [done|].
  change (blank_last (String a (String b s) +:+ String c EmptyString))
    with (String a (blank_last (String b s +:+ String c EmptyString))).
  by rewrite IH.
Qed.

Lemma blank_last_length (s : string) :
  String.length (blank_last s) = String.length s.
Proof.
  induction s as [|a s IH]; [done|]. destruct s as [|b s]; [done|].
  cbn [blank_last String.length] in *. by rewrite IH.
Qed.

Lemma skip_blanks_length (s : string) :
  (String.length (skip_blanks s) <= String.length s)%nat.
Proof.
  induction s as [|a s IH]; simpl; [done|]. destruct (is_blank a); simpl; lia.
Qed.

Lemma strchr_length buf c a r :
  strchr buf c = Some (a, r) ->
  String.length buf = (String.length a + 1 + String.length r)%nat.
Proof.
  revert a. induction buf as [|b buf IH]; intros a; simpl; [done|].
  destruct (Ascii.eqb b c).
  - intros [= <- <-]. simpl. lia.
  - destruct (strchr buf c) as [[a' r']|]; [|done].
    intros [= <- <-]. simpl. rewrite (IH a' eq_refl). lia.
Qed.

Lemma next_arg_length buf a r :
  next_arg buf = Some (a, r) ->
  (String.length r < String.length buf)%nat.
Proof.
  unfold next_arg. destruct (is_quote (char0 buf)).
  - destruct buf as [|b buf]; simpl; [done|].
    intros H%strchr_length. lia.
  - intros H%strchr_length. lia.
Qed.

(** The loop of [parseline] ends: [strlen(buf)] rounds are enough. *)
Lemma parse_args_fuel (fuel1 fuel2 : nat) (buf : string) :
  (String.length buf <= fuel1)%nat -> (String.length buf <= fuel2)%nat ->
  parse_args fuel1 buf = parse_args fuel2 buf /\
  is_Some (parse_args fuel1 buf).
Proof.
  revert fuel2 buf. induction fuel1 as [|f1 IH]; intros f2 buf H1 H2.
  - destruct buf; [|simpl in H1; lia]. destruct f2; by eauto.
  - destruct f2 as [|f2].
    { destruct buf; [by eauto|simpl in H2; lia]. }
    cbn [parse_args]. destruct (next_arg buf) as [[a r]|] eqn:E; [|by eauto].
    apply next_arg_length in E. pose proof (skip_blanks_length r).
    destruct (IH f2 (skip_blanks r)) as [-> [l ->]]; [lia..|]. by eauto.
Qed.

Lemma parse_step buf a r :
  next_arg buf = Some (a, r) -> parse buf = cons a <$> parse (skip_blanks r).
Proof.
  intros E. pose proof (next_arg_length _ _ _ E) as Hlt.
  pose proof (skip_blanks_length r) as Hle. unfold parse.
  destruct (String.length buf) as [|n] eqn:Hn; [lia|].
  cbn [parse_args]. rewrite E.
  by destruct (parse_args_fuel n (String.length (skip_blanks r))
                 (skip_blanks r)) as [-> _]; [lia..|].
Qed.

Lemma parse_end buf : next_arg buf = None -> parse buf = Some [].
Proof. intros E. unfold parse. destruct (String.length buf); simpl; by rewrite E. Qed.

Lemma strchr_word w c rest :
  no_char c w = true -> strchr (w +:+ String c rest) c = Some (w, rest).
Proof.
  induction w as [|a w IH]; simpl.
  - intros _. by rewrite Ascii.eqb_refl.
  - intros [Ha Hw]%andb_true_iff. apply negb_true_iff in Ha.
    rewrite Ha, (IH Hw). done.
Qed.

Lemma plain_word_inv w :
  plain_word w = true ->
  exists a w', w = String a w' /\ is_blank a = false /\ is_quote a = false /\
    no_char " " w = true.
Proof.
  unfold plain_word. intros [[Hne Hnb]%andb_true_iff Hq]%andb_true_iff.
  destruct w as [|a w']; [done|]. exists a, w'.
  apply negb_true_iff in Hq. simpl in Hnb |- *.
  apply andb_true_iff in Hnb as [Ha Hw']. apply negb_true_iff in Ha.
  unfold is_blank. by rewrite Ha, Hw'.
Qed.

Lemma next_arg_word w rest :
  plain_word w = true -> next_arg (w +:+ String " " rest) = Some (w, rest).
Proof.
  intros (a & w' & -> & _ & Hq & Hnb)%plain_word_inv.
  unfold next_arg.
  change (char0 (String a w' +:+ String " " rest)) with a. rewrite Hq.
  by apply (strchr_word (String a w')).
Qed.

Lemma skip_blanks_word w s :
  plain_word w = true -> skip_blanks (w +:+ s) = w +:+ s.
Proof.
  intros (a & w' & -> & Hb & _)%plain_word_inv. simpl. by rewrite Hb.
Qed.

Lemma line_of_cons w ws e :
  ws <> [] -> line_of (w :: ws) e = w +:+ String " " (line_of ws e).
Proof. by destruct ws. Qed.

Lemma line_of_blank_cons w ws :
  line_of (w :: ws) " " = w +:+ String " " (line_of ws " ").
Proof. by destruct ws. Qed.

Lemma skip_blanks_line_of ws :
  Forall (fun w => plain_word w = true) ws ->
  skip_blanks (line_of ws " ") = line_of ws " ".
Proof.
  intros [|w ws' Hw _]; [done|].
  rewrite line_of_blank_cons. by apply skip_blanks_word.
Qed.

Lemma parse_line_of ws :
  Forall (fun w => plain_word w = true) ws ->
  parse (line_of ws " ") = Some ws.
Proof.
  induction 1 as [|w ws Hw Hws IH]; [done|].
  rewrite line_of_blank_cons.
  rewrite (parse_step _ _ _ (next_arg_word w _ Hw)).
  by rewrite skip_blanks_line_of, IH.
Qed.

Lemma blank_last_prefix s t :
  t <> EmptyString -> blank_last (s +:+ t) = s +:+ blank_last t.
Proof.
  intros Ht. induction s as [|a s IH]; [done|].
  change (blank_last (String a (s +:+ t)) = String a (s +:+ blank_last t)).
  rewrite <- IH.
  destruct (s +:+ t) eqn:E; [|done].
  destruct s; simpl in E; [done|discriminate].
Qed.

Lemma blank_last_line_of ws e :
  blank_last (line_of ws e) = line_of ws " ".
Proof.
  induction ws as [|w ws IH]; [done|].
  destruct ws as [|w' ws].
  - apply blank_last_app.
  - rewrite (line_of_cons w (w' :: ws) e) by done.
    rewrite (line_of_cons w (w' :: ws) " ") by done.
    rewrite blank_last_prefix by done. f_equal. rewrite <- IH.
    destruct (line_of (w' :: ws) e) eqn:E; [|done].
    destruct ws, w'; discriminate.
Qed.

Lemma parseline_line_of ws e :
  ws <> [] ->
  Forall (fun w => plain_word w = true) ws ->
  Z.of_nat (length ws) < MAXARGS ->
  Z.of_nat (String.length (line_of ws e)) < MAXLINE ->
  parseline (line_of ws e)
  = match last ws with
    | None => Some ([], 1)
    | Some a =>
        if Ascii.eqb (char0 a) "&" then Some (removelast ws, 1)
        else Some (ws, 0)
    end.
Proof.
  intros Hne Hws Hargs Hline. unfold parseline.
  rewrite bool_decide_false.
  2:{ destruct ws as [|w [|w' ws]]; [done|..].
      - simpl. rewrite app_length_string. simpl. lia.
      - rewrite line_of_cons by done. rewrite app_length_string. simpl. lia. }
  destruct (Z.leb_spec MAXLINE (Z.of_nat (String.length (line_of ws e))));
    [lia|].
  cbn [orb]. rewrite blank_last_line_of, skip_blanks_line_of by done.
  fold (parse (line_of ws " ")). rewrite parse_line_of by done.
  by destruct (Z.leb_spec MAXARGS (Z.of_nat (length ws))); [lia|].
Qed.

(** X19.  Words typed with one blank between them and a newline at the end come
    back as the argument vector, and the value returned is 0 (a job for the
    foreground), when the last word does not start with an ampersand. *)
Theorem parseline_words (ws : list string) (w : string) :
  Forall (fun w => plain_word w = true) (ws ++ [w]) ->
  Ascii.eqb (char0 w) "&" = false ->
  Z.of_nat (length (ws ++ [w])) < MAXARGS ->
  Z.of_nat (String.length (line_of (ws ++ [w]) newline)) < MAXLINE ->
  parseline (line_of (ws ++ [w]) newline) = Some (ws ++ [w], 0).
Proof.
  intros Hws Hamp Hargs Hline.
  rewrite parseline_line_of by (done || by destruct ws).
  by rewrite last_snoc, Hamp.
Qed.

(** X20.  A last word that starts with an ampersand is taken off the argument
    vector and the value returned is 1 (a job for the background). *)
Theorem parseline_background (ws : list string) (w : string) :
  Forall (fun w => plain_word w = true) (ws ++ [w]) ->
  Ascii.eqb (char0 w) "&" = true ->
  Z.of_nat (length (ws ++ [w])) < MAXARGS ->
  Z.of_nat (String.length (line_of (ws ++ [w]) newline)) < MAXLINE ->
  parseline (line_of (ws ++ [w]) newline) = Some (ws, 1).
Proof.
  intros Hws Hamp Hargs Hline.
  rewrite parseline_line_of by (done || by destruct ws).
  by rewrite last_snoc, Hamp, removelast_last.
Qed.

Lemma blanks_length n : String.length (blanks n) = n.
Proof. induction n; simpl; congruence. Qed.

Lemma skip_blanks_blanks n s : skip_blanks (blanks n +:+ s) = skip_blanks s.
Proof. induction n as [|n IH]; [done|]. exact IH. Qed.

(** X21.  A line of blanks only, and the line of a bare newline, gives the empty
    argument vector and the value 1. *)
Theorem parseline_blank (n : nat) (c : ascii) :
  Z.of_nat n + 1 < MAXLINE ->
  parseline (blanks n +:+ String c EmptyString) = Some ([], 1).
Proof.
  intros Hn. unfold parseline.
  rewrite app_length_string, blanks_length. cbn [String.length].
  rewrite bool_decide_false by lia.
  destruct (Z.leb_spec MAXLINE (Z.of_nat (n + 1))); [lia|].
  cbn [orb]. rewrite blank_last_app, skip_blanks_blanks. reflexivity.
Qed.

Lemma app_assoc_string (s t u : string) : (s +:+ t) +:+ u = s +:+ (t +:+ u).
Proof.
  induction s as [|a s IH]; [done|].
  change (String a ((s +:+ t) +:+ u) = String a (s +:+ (t +:+ u))).
  by rewrite IH.
Qed.

Lemma app_cons_string (a : ascii) (s t : string) :
  String a s +:+ t = String a (s +:+ t).
Proof. done. Qed.

Lemma parse_words_then ws rest :
  Forall (fun w => plain_word w = true) ws ->
  skip_blanks rest = rest ->
  parse (line_of ws " " +:+ rest) = (ws ++.) <$> parse rest.
Proof.
  intros Hws Hrest. induction Hws as [|w ws Hw Hws IH].
  - change (line_of [] " " +:+ rest) with rest. by destruct (parse rest).
  - rewrite line_of_blank_cons, app_assoc_string.
    change (String " " (line_of ws " ") +:+ rest)
      with (String " " (line_of ws " " +:+ rest)).
    rewrite (parse_step _ _ _ (next_arg_word w _ Hw)).
    assert (skip_blanks (line_of ws " " +:+ rest) = line_of ws " " +:+ rest)
      as ->.
    { destruct Hws as [|w' ws' Hw' _]; [done|].
      rewrite line_of_blank_cons, app_assoc_string.
      by apply skip_blanks_word. }
    rewrite IH. by destruct (parse rest).
Qed.

Lemma strchr_none c s : no_char c s = true -> strchr s c = None.
Proof.
  induction s as [|a s IH]; simpl; [done|].
  intros [Ha Hs]%andb_true_iff. apply negb_true_iff in Ha.
  by rewrite Ha, IH.
Qed.

Lemma parseline_of_buffer (x : string) (argv : list string) :
  skip_blanks (x +:+ " ") = x +:+ " " ->
  parse (x +:+ " ") = Some argv ->
  Z.of_nat (length argv) < MAXARGS ->
  Z.of_nat (String.length x) + 1 < MAXLINE ->
  parseline (x +:+ String newline EmptyString)
  = match last argv with
    | None => Some ([], 1)
    | Some a =>
        if Ascii.eqb (char0 a) "&" then Some (removelast argv, 1)
        else Some (argv, 0)
    end.
Proof.
  intros Hskip Hparse Hargs Hline. unfold parseline.
  rewrite app_length_string. cbn [String.length].
  rewrite bool_decide_false by lia.
  destruct (Z.leb_spec MAXLINE (Z.of_nat (String.length x + 1))); [lia|].
  cbn [orb]. rewrite blank_last_app, Hskip.
  fold (parse (x +:+ " ")). rewrite Hparse.
  by destruct (Z.leb_spec MAXARGS (Z.of_nat (length argv))); [lia|].
Qed.

Lemma skip_blanks_words_then ws rest :
  Forall (fun w => plain_word w = true) ws ->
  skip_blanks rest = rest ->
  skip_blanks (line_of ws " " +:+ rest) = line_of ws " " +:+ rest.
Proof.
  intros [|w ws' Hw _] Hrest; [done|].
  rewrite line_of_blank_cons, app_assoc_string. by apply skip_blanks_word.
Qed.

(** X22.  After words typed with one blank after each, a span between single
    quotes is one argument, with the blanks it holds and without the
    quotes. *)
Theorem parseline_quoted (ws : list string) (q : string) :
  Forall (fun w => plain_word w = true) ws ->
  no_char "'" q = true ->
  Ascii.eqb (char0 q) "&" = false ->
  Z.of_nat (length ws) + 1 < MAXARGS ->
  Z.of_nat (String.length (line_of ws " ") + String.length q) + 3
    < MAXLINE ->
  parseline
    (line_of ws " " +:+ String "'" (q +:+ String "'" (String newline "")))
  = Some (ws ++ [q], 0).
Proof.
  intros Hws Hq Hamp Hargs Hline.
  pose (x := line_of ws " " +:+ String "'" (q +:+ String "'" "")).
  assert (line_of ws " " +:+ String "'" (q +:+ String "'" (String newline ""))
          = x +:+ String newline "") as ->.
  { unfold x.
    by rewrite app_assoc_string, app_cons_string, app_assoc_string. }
  assert (x +:+ " " = line_of ws " " +:+ String "'" (q +:+ String "'" " "))
    as Hx.
  { unfold x.
    by rewrite app_assoc_string, app_cons_string, app_assoc_string. }
  assert (parse (String "'" (q +:+ String "'" " ")) = Some [q]) as Hquote.
  { rewrite (parse_step _ q " "); [reflexivity|].
    unfold next_arg. cbn [char0 plus1]. change (is_quote "'") with true.
    cbn iota. by apply strchr_word. }
  rewrite (parseline_of_buffer x (ws ++ [q])).
  - by rewrite last_snoc, Hamp.
  - rewrite Hx. by apply skip_blanks_words_then.
  - rewrite Hx, parse_words_then, Hquote by done. done.
  - rewrite length_app. simpl. lia.
  - unfold x. rewrite app_length_string. cbn [String.length].
    rewrite app_length_string. cbn [String.length]. lia.
Qed.

(** X23.  An opening quote that is never closed ends the argument vector: what
    follows it on the line is dropped, without a message. *)
Theorem parseline_open_quote (ws : list string) (w q : string) :
  Forall (fun w => plain_word w = true) (ws ++ [w]) ->
  Ascii.eqb (char0 w) "&" = false ->
  no_char "'" q = true ->
  Z.of_nat (length ws) + 1 < MAXARGS ->
  Z.of_nat (String.length (line_of (ws ++ [w]) " ") + String.length q) + 2
    < MAXLINE ->
  parseline
    (line_of (ws ++ [w]) " " +:+ String "'" (q +:+ String newline ""))
  = Some (ws ++ [w], 0).
Proof.
  intros Hws Hamp Hq Hargs Hline.
  pose (x := line_of (ws ++ [w]) " " +:+ String "'" q).
  assert (line_of (ws ++ [w]) " " +:+ String "'" (q +:+ String newline "")
          = x +:+ String newline "") as ->.
  { unfold x. by rewrite app_assoc_string, app_cons_string. }
  assert (x +:+ " " = line_of (ws ++ [w]) " " +:+ String "'" (q +:+ " "))
    as Hx.
  { unfold x. by rewrite app_assoc_string, app_cons_string. }
  assert (parse (String "'" (q +:+ " ")) = Some []) as Hquote.
  { apply parse_end. unfold next_arg. cbn [char0 plus1].
    change (is_quote "'") with true. cbn iota. apply strchr_none.
    clear -Hq. induction q as [|a q IH]; [done|]. simpl in *.
    apply andb_true_iff in Hq as [-> Hq]. by apply IH. }
  rewrite (parseline_of_buffer x (ws ++ [w])).
  - by rewrite last_snoc, Hamp.
  - rewrite Hx. by apply skip_blanks_words_then.
  - rewrite Hx, parse_words_then, Hquote by done. simpl.
    by rewrite app_nil_r.
  - rewrite length_app. simpl. lia.
  - unfold x. rewrite app_length_string. cbn [String.length]. lia.
Qed.

Lemma strchr_split buf c a r :
  strchr buf c = Some (a, r) ->
  no_char c a = true /\ buf = a +:+ String c r.
Proof.
  revert a. induction buf as [|b buf IH]; intros a; simpl; [done|].
  destruct (Ascii.eqb_spec b c) as [->|Hne].
  - by intros [= <- <-].
  - destruct (strchr buf c) as [[a' r']|]; [|done].
    intros [= <- <-]. destruct (IH a' eq_refl) as [Ha ->].
    split; [|done]. simpl. rewrite Ha.
    by destruct (Ascii.eqb_spec b c).
Qed.

Lemma no_char_app c s t :
  no_char c (s +:+ t) = no_char c s && no_char c t.
Proof.
  induction s as [|a s IH]; [done|].
  rewrite app_cons_string. cbn [no_char]. rewrite IH. by rewrite andb_assoc.
Qed.

Lemma skip_blanks_no_char c s :
  no_char c s = true -> no_char c (skip_blanks s) = true.
Proof.
  induction s as [|a s IH]; [done|]. cbn [skip_blanks].
  destruct (is_blank a); [|done].
  cbn [no_char]. intros [_ Hs]%andb_true_iff. by apply IH.
Qed.

Lemma skip_blanks_start s : is_blank (char0 (skip_blanks s)) = false.
Proof.
  induction s as [|a s IH]; [done|]. cbn [skip_blanks].
  by destruct (is_blank a) eqn:E.
Qed.

Lemma no_quote_start s : no_char "'" s = true -> is_quote (char0 s) = false.
Proof.
  destruct s as [|a s]; [done|]. cbn [no_char char0].
  intros [Ha _]%andb_true_iff. by apply negb_true_iff in Ha.
Qed.

Lemma parse_args_plain fuel buf l :
  parse_args fuel buf = Some l ->
  no_char "'" buf = true ->
  is_blank (char0 buf) = false ->
  Forall (fun a => a <> EmptyString /\ no_char " " a = true) l.
Proof.
  revert buf l. induction fuel as [|f IH]; intros buf l; cbn [parse_args];
    unfold next_arg; intros Hp Hq Hb; rewrite (no_quote_start _ Hq) in Hp.
  - destruct (strchr buf " ") as [[a r]|]; [done|]. by simplify_eq.
  - destruct (strchr buf " ") as [[a r]|] eqn:E; [|by simplify_eq].
    destruct (parse_args f (skip_blanks r)) as [l'|] eqn:E'; [|done].
    simplify_eq/=. apply strchr_split in E as [Ha ->].
    rewrite no_char_app in Hq. apply andb_true_iff in Hq as [_ Hq].
    cbn [no_char] in Hq. apply andb_true_iff in Hq as [_ Hq].
    constructor.
    + split; [|done]. by intros ->.
    + eapply IH; [done|by apply skip_blanks_no_char|apply skip_blanks_start].
Qed.

Lemma Forall_removelast {A} (P : A -> Prop) (l : list A) :
  Forall P l -> Forall P (removelast l).
Proof.
  induction 1 as [|x l Hx Hl IH]; [done|]. simpl.
  destruct l; [constructor|]. by constructor.
Qed.

Lemma blank_last_no_char s : no_char "'" s = true -> no_char "'" (blank_last s) = true.
Proof.
  induction s as [|a s IH]; [done|]. destruct s as [|b s]; [done|].
  change (blank_last (String a (String b s)))
    with (String a (blank_last (String b s))).
  cbn [no_char] in *. intros [-> Hs]%andb_true_iff. by apply IH.
Qed.

(** X24.  On a line without a quote, no argument that [parseline] returns is
    empty or holds a blank. *)
Theorem parseline_plain_arguments
    (cmdline : string) (argv : list string) (bg : Z) :
  parseline cmdline = Some (argv, bg) ->
  no_char "'" cmdline = true ->
  Forall (fun a => a <> EmptyString /\ no_char " " a = true) argv.
Proof.
  unfold parseline. intros Hp Hq.
  destruct (_ || _); [done|].
  destruct (parse_args _ _) as [l|] eqn:E; [|done].
  apply parse_args_plain in E;
    [|by apply skip_blanks_no_char, blank_last_no_char
     |apply skip_blanks_start].
  destruct (MAXARGS <=? _); [done|].
  destruct (last l) as [a|]; [|by simplify_eq].
  destruct (Ascii.eqb (char0 a) "&"); simplify_eq; [|done].
  by apply Forall_removelast.
Qed.

(** * listjobs *)

Lemma live_states_known_step st o :
  registers_known_state o -> live_states_known st ->
  live_states_known (step st o).
Proof.
  intros Ho Hst. destruct o as [p s cmd|p]; simpl.
  - destruct (addjob_cases st p s cmd) as [->|(i & Hp & Hi & ->)]; [done|].
    pose proof (lowest_slot_lt _ _ _ Hi) as Hlt.
    intros k j Hk Hlive. cbn [snd jobs] in Hk.
    destruct (decide (k = i)) as [->|Hne].
    + rewrite list_lookup_insert_eq in Hk by done. by simplify_eq/=.
    + rewrite list_lookup_insert_ne in Hk by done. eauto.
  - destruct (deletejob_cases st p) as [->|(i & Hp & Hi & ->)]; [done|].
    intros k j Hk Hlive. cbn [snd jobs] in Hk.
    apply alter_clearjob_live in Hk as [_ Hk]; eauto.
Qed.

Lemma live_states_known_run ops st :
  Forall registers_known_state ops -> live_states_known st ->
  live_states_known (run ops st).
Proof.
  intros Hops. revert st. induction Hops as [|o ops Ho _ IH]; intros st Hst;
    [done|].
  simpl. by apply IH, live_states_known_step.
Qed.

Lemma listjobs_from_known (js : list job_t) (i : nat) :
  (forall k j, js !! k = Some j -> pid j <> 0 -> known_state (state j)) ->
  listjobs_from js i
  = flat_map job_line (filter (fun j => pid j <> 0) js).
Proof.
  revert i. induction js as [|j js IH]; intros i Hknown; [done|].
  cbn [listjobs_from]. rewrite (IH (S i)).
  2:{ intros k j' Hk. by apply (Hknown (S k)). }
  rewrite filter_cons. unfold listjobs_slot.
  destruct (Z.eqb_spec (pid j) 0) as [Hz|Hnz].
  - by rewrite decide_False by (by intros ?).
  - rewrite decide_True by done. cbn [flat_map]. f_equal.
    unfold job_line, state_label.
    destruct (Hknown 0%nat j eq_refl Hnz) as [-> | [-> | ->]]; reflexivity.
Qed.

(** X25.  When the jobs were registered in the states FG, BG and ST only,
    [listjobs] prints the jobs of the slots in use, in the order of the
    slots, each with the label of its state: the branch of the internal
    error is never taken.  It does not change the shell. *)
Theorem listjobs_lists_live_jobs (ops : list op) :
  Forall registers_known_state ops ->
  let st := run ops initial_shell in
  listjobs st
  = (flat_map job_line (filter (fun j => pid j <> 0) (jobs st)),
     Returns tt st).
Proof.
  intros Hops st. unfold listjobs. f_equal.
  apply listjobs_from_known.
  apply (live_states_known_run ops initial_shell Hops).
  intros i j Hj Hlive. apply initial_shell_empty in Hj as ->. done.
Qed.

(** * eval *)

Lemma builtin_cmd_other cmd args pending st :
  builtin_name cmd = false ->
  builtin_cmd (cmd :: args) pending st = ([], Returns (0, pending) st).
Proof.
  unfold builtin_name, builtin_cmd.
  destruct (String.eqb cmd "quit"), (String.eqb cmd "jobs"),
    (String.eqb cmd "fg"), (String.eqb cmd "bg"); done.
Qed.

Lemma addjob_quiet st p s cmd i :
  1 <= p -> verbose st = 0 -> lowest_slot empty_slot (jobs st) i ->
  addjob st p s cmd
  = ([], (1, Shell (<[i := Job p (nextjid st) s cmd]> (jobs st))
               (next_after (nextjid st)) (verbose st) (check_fg st))).
Proof.
  intros Hp Hverb Hi. unfold addjob.
  destruct (Z.ltb_spec p 1) as [?|_]; [lia|].
  apply lowest_slot_first in Hi as (j & _ & Hf).
  unfold empty_slot in Hf. rewrite Hf, Hverb. done.
Qed.

Ltac run_eval :=
  unfold eval, unblock_sigchld, deliver_pending, check_ret, addjob_proc;
  run_proc.


(** A blank line: [eval] returns at once, with nothing printed, no
    process made and the shell as it was. *)
Theorem eval_blank_line (n : nat) (c : ascii) (os : answers) (st : shell) :
  Z.of_nat n + 1 < MAXLINE ->
  eval (blanks n +:+ String c EmptyString) os st
  = ([], Returns (Back (caught os)) st).
Proof.
  intros Hn. unfold eval.
  assert (parseline (blanks n +:+ String c EmptyString) = Some ([], 1))
    as ->; [|done].
  unfold parseline.
  rewrite app_length_string, blanks_length. cbn [String.length].
  rewrite bool_decide_false by lia.
  destruct (Z.leb_spec MAXLINE (Z.of_nat (n + 1))); [lia|].
  cbn [orb]. rewrite blank_last_app, skip_blanks_blanks. reflexivity.
Qed.

Lemma pid2jid_not_found st p :
  getjobpid (jobs st) p = None -> pid2jid st p = 0.
Proof.
  unfold getjobpid, pid2jid. destruct (p <? 1); [done|].
  by destruct (first_slot (fun j => pid j =? p) (jobs st) 0) as [[i j]|].
Qed.

Lemma addjob_full st p s cmd :
  1 <= p -> (forall i j, jobs st !! i = Some j -> pid j <> 0) ->
  addjob st p s cmd
  = ([Printf ("Tried to create too many jobs" +:+ nl)], (0, st)).
Proof.
  intros Hp Hfull. unfold addjob.
  destruct (Z.ltb_spec p 1); [lia|].
  assert (first_slot (fun j => pid j =? 0) (jobs st) 0 = None) as ->;
    [|done].
  apply first_slot_None. intros i j Hj. apply Z.eqb_neq. eauto.
Qed.


#[local] Opaque addjob builtin_cmd pid2jid waitfg parseline sigchld_handler.

(** X26.  A command for the background, in the parent after a [fork] that
    worked: when the pid is new to the list and a slot is empty, the job is
    registered in state BG in the lowest empty slot and announced with the
    handle it was given.  All this is done with SIGCHLD blocked; a SIGCHLD
    that is pending is handled after it, when the block is lifted, on the
    list with the job registered.  With none pending [eval] returns at
    once. *)
Theorem eval_background_job
    (cmdline arg0 : string) (args : list string) (os : answers)
    (st : shell) (i : nat) :
  parseline cmdline = Some (arg0 :: args, 1) ->
  builtin_name arg0 = false ->
  0 <= block_ret os -> 0 < fork_ret os -> 0 <= unblock_ret os ->
  verbose st = 0 ->
  (forall k j, jobs st !! k = Some j -> pid j <> fork_ret os) ->
  lowest_slot empty_slot (jobs st) i ->
  let announced :=
    Printf ("[" +:+ fmt_d (nextjid st) +:+ "] (" +:+ fmt_d (fork_ret os)
            +:+ ") " +:+ cmdline) in
  let registered :=
    Shell (<[i := Job (fork_ret os) (nextjid st) BG cmdline]> (jobs st))
      (next_after (nextjid st)) (verbose st) (check_fg st) in
  let unblocked :=
    (deliver_pending os;; mret (Back (caught os))) registered in
  eval cmdline os st = (announced :: fst unblocked, snd unblocked) /\
  (pending_chld os = None ->
   eval cmdline os st = ([announced], Returns (Back (caught os)) registered)).
Proof.
  intros Hparse Hnb Hblock Hfork Hunblock Hverb Hfresh Hi
    announced registered unblocked.
  destruct (addjob_then_lookup_aux st (fork_ret os) BG cmdline i)
    as (_ & _ & Hjid); [lia|done..|].
  pose proof (addjob_quiet st (fork_ret os) BG cmdline i) as Hadd.
  rewrite Hadd in Hjid by (lia || done). cbn [snd] in Hjid.
  assert (eval cmdline os st = (announced :: fst unblocked, snd unblocked))
    as Heval.
  { subst announced registered unblocked.
    unfold eval. rewrite Hparse. run_eval.
    rewrite (builtin_cmd_other _ _ _ _ Hnb). cbn.
    destruct (Z.ltb_spec (block_ret os) 0); [lia|].
    destruct (Z.ltb_spec (fork_ret os) 0); [lia|].
    destruct (Z.eqb_spec (fork_ret os) 0); [lia|]. cbn.
    rewrite Hadd by (lia || done). cbn.
    destruct (Z.ltb_spec (unblock_ret os) 0); [lia|].
    cbn. rewrite Hjid.
    destruct (pending_chld os) as [reaped|]; [|reflexivity].
    by destruct (sigchld_handler reaped _) as [tr [[] s| | |]]. }
  split; [exact Heval|].
  intros Hnone. rewrite Heval. subst unblocked.
  unfold deliver_pending. rewrite Hnone. reflexivity.
Qed.

(** X27.  A command for the background when no slot is empty: [addjob] says so
    and registers nothing, and [eval] still announces the process, with
    the handle 0 that [pid2jid] returns for a pid it does not find.  The
    process runs outside the job list.  A pending SIGCHLD is handled after
    it, on the list as it was; with none pending [eval] returns at once. *)
Theorem eval_background_table_full
    (cmdline arg0 : string) (args : list string) (os : answers)
    (st : shell) :
  parseline cmdline = Some (arg0 :: args, 1) ->
  builtin_name arg0 = false ->
  0 <= block_ret os -> 0 < fork_ret os -> 0 <= unblock_ret os ->
  (forall i j, jobs st !! i = Some j -> pid j <> 0) ->
  getjobpid (jobs st) (fork_ret os) = None ->
  let printed :=
    [Printf ("Tried to create too many jobs" +:+ nl);
     Printf ("[0] (" +:+ fmt_d (fork_ret os) +:+ ") " +:+ cmdline)] in
  let unblocked := (deliver_pending os;; mret (Back (caught os))) st in
  eval cmdline os st = (printed ++ fst unblocked, snd unblocked) /\
  (pending_chld os = None ->
   eval cmdline os st = (printed, Returns (Back (caught os)) st)).
Proof.
  intros Hparse Hnb Hblock Hfork Hunblock Hfull Hnone printed unblocked.
  assert (eval cmdline os st = (printed ++ fst unblocked, snd unblocked))
    as Heval.
  { subst printed unblocked.
    unfold eval. rewrite Hparse. run_eval.
    rewrite (builtin_cmd_other _ _ _ _ Hnb). cbn.
    destruct (Z.ltb_spec (block_ret os) 0); [lia|].
    destruct (Z.ltb_spec (fork_ret os) 0); [lia|].
    destruct (Z.eqb_spec (fork_ret os) 0); [lia|]. cbn.
    rewrite addjob_full by (lia || done). cbn.
    destruct (Z.ltb_spec (unblock_ret os) 0); [lia|].
    cbn. rewrite (pid2jid_not_found _ _ Hnone).
    destruct (pending_chld os) as [reaped|]; [|reflexivity].
    by destruct (sigchld_handler reaped _) as [tr [[] s| | |]]. }
  split; [exact Heval|].
  intros Hpend. rewrite Heval. subst unblocked.
  unfold deliver_pending. rewrite Hpend. reflexivity.
Qed.

(** X28.  A command that is not built in, when [fork] fails: the error is
    reported through [unix_error] and the shell exits with status 1. *)
Theorem eval_fork_fails
    (cmdline arg0 : string) (args : list string) (bg : Z) (os : answers)
    (st : shell) :
  parseline cmdline = Some (arg0 :: args, bg) ->
  builtin_name arg0 = false ->
  0 <= block_ret os -> fork_ret os < 0 ->
  eval cmdline os st
  = ([Printf ("fork error" +:+ nl +:+ ": " +:+ errstr os +:+ nl)], Exits 1).
Proof.
  intros Hparse Hnb Hblock Hfork.
  unfold eval. rewrite Hparse. run_eval.
  rewrite (builtin_cmd_other _ _ _ _ Hnb). cbn.
  destruct (Z.ltb_spec (block_ret os) 0); [lia|].
  destruct (Z.ltb_spec (fork_ret os) 0); [|lia]. reflexivity.
Qed.

(** X29.  In the child that [fork] has made, [eval] touches no job: either
    [execve] loads the program, or the child prints that the command was
    not found and exits with status 0. *)
Theorem eval_in_child
    (cmdline arg0 : string) (args : list string) (bg : Z) (os : answers)
    (st : shell) :
  parseline cmdline = Some (arg0 :: args, bg) ->
  builtin_name arg0 = false ->
  0 <= block_ret os -> fork_ret os = 0 -> 0 <= unblock_ret os ->
  eval cmdline os st
  = if execve_ok os then ([], Returns (Runs_program (arg0 :: args)) st)
    else ([Printf (arg0 +:+ ": Command not found" +:+ nl)], Exits 0).
Proof.
  intros Hparse Hnb Hblock Hfork Hunblock.
  unfold eval. rewrite Hparse. run_eval.
  rewrite (builtin_cmd_other _ _ _ _ Hnb). cbn. rewrite Hfork.
  destruct (Z.ltb_spec (block_ret os) 0); [lia|].
  destruct (Z.ltb_spec (unblock_ret os) 0); [lia|].
  by destruct (execve_ok os).
Qed.

Lemma bind_returns {A B} (m : proc A) (f : A -> proc B) st tr a st' :
  m st = (tr, Returns a st') ->
  (m ≫= f) st = (tr ++ fst (f a st'), snd (f a st')).
Proof.
  intros Hm. unfold mbind, proc_mbind, proc_bind. rewrite Hm.
  by destruct (f a st').
Qed.


#[local] Transparent addjob builtin_cmd pid2jid waitfg parseline
  sigchld_handler.

(** * The further properties at concrete inputs *)

Lemma one_job_jobs :
  jobs one_job
  = Job 10 1 BG ("/bin/sleep 5 &" +:+ nl) :: replicate 15 (Job 0 0 UNDEF "").
Proof. reflexivity. Defined.

Lemma addjob_then_lookup_witness :
  let st' := snd (snd (addjob one_job 20 BG "/bin/ls &")) in
  getjobpid (jobs st') 20 = Some 1%nat /\
  jobs st' !! 1%nat = Some (Job 20 2 BG "/bin/ls &") /\
  pid2jid st' 20 = 2.
Proof.
  apply (addjob_then_lookup one_job 20 BG "/bin/ls &" 1%nat); [lia| |].
  - refine (proj1 (Forall_lookup (fun j => pid j <> 20) _) _).
    apply (bool_decide_unpack _). vm_compute. exact I.
  - exact (proj2 (proj1 (first_slot_lowest empty_slot (jobs one_job) 1%nat
                           (Job 0 0 UNDEF "")) eq_refl)).
Defined.

Lemma deletejob_then_lookup_witness :
  getjobpid (jobs one_job) 10 = Some 0%nat /\
  getjobpid (jobs (snd (deletejob one_job 10))) 10 = None /\
  pid2jid (snd (deletejob one_job 10)) 10 = 0.
Proof.
  split; [reflexivity|].
  apply (deletejob_then_lookup one_job 10).
  assert (forall i j, jobs one_job !! i = Some j -> pid j = 10 -> i = 0%nat)
    as Hzero.
  { intros [|i] j Hj Hp; [reflexivity|].
    rewrite one_job_jobs in Hj. cbn [lookup list_lookup] in Hj.
    apply lookup_replicate in Hj as [-> _]. discriminate. }
  intros i k ji jk Hi Hk Hpi Hpk.
  rewrite (Hzero i ji Hi Hpi), (Hzero k jk Hk Hpk). reflexivity.
Defined.

Lemma run_slots_wellformed_witness :
  jobs (run reuse_ops initial_shell) !! 0%nat = Some (Job 10 1 BG "a") /\
  1 <= nextjid (run reuse_ops initial_shell) /\
  (Job 10 1 BG "a" = Job 0 0 UNDEF "" \/
   (1 <= pid (Job 10 1 BG "a") /\ 1 <= jid (Job 10 1 BG "a"))).
Proof.
  split; [reflexivity|].
  apply (run_slots_wellformed reuse_ops 0%nat (Job 10 1 BG "a")).
  reflexivity.
Defined.

Lemma sigchld_handler_reaps_witness :
  let st' := set_check_fg (snd (deletejob one_job 10)) 0 in
  sigchld_handler [(10, WEXITED 0)] one_job = ([], Returns tt st') /\
  sigchld_handler [(10, WSIGNALED SIGINT)] one_job
  = ([Printf ("job [1] (10) terminated by signal 2" +:+ nl)],
     Returns tt st').
Proof.
  apply (sigchld_handler_reaps one_job 10 0
           (Job 10 1 BG ("/bin/sleep 5 &" +:+ nl)));
    [lia|reflexivity|reflexivity].
Defined.

Lemma sigchld_handler_stops_witness :
  sigchld_handler [(10, WSTOPPED 19)] one_job
  = ([Printf ("job [1] (10) stopped by signal 20" +:+ nl)],
     Returns tt
       (set_check_fg
          (set_jobs one_job
             (alter (fun j => set_state j ST) 0%nat (jobs one_job))) 0)).
Proof.
  apply (sigchld_handler_stops one_job 10 19
           (Job 10 1 BG ("/bin/sleep 5 &" +:+ nl)) 0%nat);
    [lia|reflexivity..].
Defined.

Lemma sigchld_handler_unknown_pid_witness :
  getjobpid (jobs one_job) 77 = None /\
  sigchld_handler [(77, WEXITED 0); (10, WEXITED 0)] one_job
  = ([], Undefined).
Proof.
  split; [reflexivity|].
  apply (sigchld_handler_unknown_pid one_job 77 (WEXITED 0)
           [(10, WEXITED 0)]); [lia|reflexivity].
Defined.

Lemma sigchld_handler_reaps_two_witness :
  sigchld_handler [(5, WEXITED 0); (6, WEXITED 0)] busy_table
  = ([], Returns tt
           (set_check_fg (snd (deletejob (snd (deletejob busy_table 5)) 6))
              1)) /\
  sigchld_handler [(6, WEXITED 0); (7, WEXITED 0)] busy_table
  = ([], Returns tt
           (set_check_fg (snd (deletejob (snd (deletejob busy_table 6)) 7))
              0)).
Proof.
  split.
  - apply (sigchld_handler_reaps_two busy_table 5 6 0 0
             (Job 5 1 FG ("/bin/sleep 100" +:+ nl))
             (Job 6 2 BG ("/bin/true &" +:+ nl)));
      [lia|lia|reflexivity..].
  - apply (sigchld_handler_reaps_two busy_table 6 7 0 0
             (Job 6 2 BG ("/bin/true &" +:+ nl))
             (Job 7 3 BG ("/bin/true &" +:+ nl)));
      [lia|lia|reflexivity..].
Defined.

Lemma waitfg_released_by_exit_witness :
  waitfg 5 [CaughtCHLD [(5, WEXITED 0)]; CaughtINT 0 ""] sleeping_foreground
  = ([], Returns [CaughtINT 0 ""]
           (set_check_fg (snd (deletejob sleeping_foreground 5)) 1)) /\
  fgpid (jobs shuffled_foreground) = 30 /\
  waitfg 30 [CaughtCHLD [(30, WEXITED 0)]] shuffled_foreground
  = ([], Suspended).
Proof.
  split; [|split; [reflexivity|]].
  - destruct (waitfg_released_by_exit sleeping_foreground 5 5 0
                (Job 5 1 FG ("/bin/sleep 100" +:+ nl)) [CaughtINT 0 ""])
      as [Hfg _]; [lia|reflexivity..|].
    apply Hfg. reflexivity.
  - destruct (waitfg_released_by_exit shuffled_foreground 30 30 0
                (Job 0 0 UNDEF "") [])
      as [_ Hnot]; [lia|reflexivity..|].
    rewrite Hnot; [reflexivity|]. vm_compute. discriminate.
Defined.

Lemma waitfg_takes_at_most_two_witness :
  [CaughtCHLD [(5, WEXITED 0)]]
  = CaughtCHLD [(7, WEXITED 0)] :: [CaughtCHLD [(5, WEXITED 0)]] \/
  [CaughtCHLD [(5, WEXITED 0)]] = [CaughtCHLD [(5, WEXITED 0)]].
Proof.
  eapply (waitfg_takes_at_most_two 5 (CaughtCHLD [(6, WEXITED 0)])
            (CaughtCHLD [(7, WEXITED 0)]) [CaughtCHLD [(5, WEXITED 0)]]
            [CaughtCHLD [(5, WEXITED 0)]] busy_table).
  vm_compute. reflexivity.
Defined.

Lemma do_bgfg_rejects_witness :
  do_bgfg ["fg"] [] one_job
  = ([Printf ("fg requires PID or %jobid argument" +:+ nl)],
     Returns [] one_job) /\
  do_bgfg ["fg"; "%7"] [] one_job
  = ([Printf ("%7: No such job" +:+ nl)], Returns [] one_job).
Proof.
  destruct (do_bgfg_rejects one_job "fg" "%7" [] []) as (Hmissing & _ & Hjob).
  { vm_compute. split; discriminate. }
  split; [exact Hmissing|]. apply Hjob; reflexivity.
Defined.

Lemma bgfg_handle_in_its_slot_witness :
  let continued s :=
    set_jobs stopped_1234
      (alter (fun j => set_state j s) 0%nat (jobs stopped_1234)) in
  do_bgfg ["bg"; "%1"] [] stopped_1234
  = ([Kill (-1234) SIGCONT;
      Printf ("[1] (1234) /bin/sleep 100" +:+ nl)],
     Returns [] (continued BG)) /\
  do_bgfg ["fg"; "%1"] [] stopped_1234
  = (Kill (-1234) SIGCONT :: fst (waitfg 1234 [] (continued FG)),
     snd (waitfg 1234 [] (continued FG))).
Proof.
  apply (bgfg_handle_in_its_slot stopped_1234 "%1" 1
           (Job 1234 1 ST ("/bin/sleep 100" +:+ nl)) []);
    [reflexivity|reflexivity|vm_compute; split; discriminate
    |reflexivity|reflexivity].
Defined.

Lemma parseline_words_witness :
  parseline ("/bin/ls -l" +:+ nl) = Some (["/bin/ls"; "-l"], 0).
Proof.
  apply (parseline_words ["/bin/ls"] "-l");
    [repeat constructor|reflexivity|reflexivity|reflexivity].
Defined.

Lemma parseline_background_witness :
  parseline ("/bin/sleep 5 &" +:+ nl) = Some (["/bin/sleep"; "5"], 1).
Proof.
  apply (parseline_background ["/bin/sleep"; "5"] "&");
    [repeat constructor|reflexivity|reflexivity|reflexivity].
Defined.

Lemma parseline_blank_witness :
  parseline ("   " +:+ nl) = Some ([], 1).
Proof. apply (parseline_blank 3 newline). reflexivity. Defined.

Lemma parseline_quoted_witness :
  parseline ("/bin/echo 'a b'" +:+ nl) = Some (["/bin/echo"; "a b"], 0).
Proof.
  apply (parseline_quoted ["/bin/echo"] "a b");
    [repeat constructor|reflexivity|reflexivity|reflexivity|reflexivity].
Defined.

Lemma parseline_open_quote_witness :
  parseline ("/bin/echo 'a b" +:+ nl) = Some (["/bin/echo"], 0).
Proof.
  apply (parseline_open_quote [] "/bin/echo" "a b");
    [repeat constructor|reflexivity|reflexivity|reflexivity|reflexivity].
Defined.

Lemma parseline_plain_arguments_witness :
  parseline ("/bin/ls  -l &" +:+ nl) = Some (["/bin/ls"; "-l"], 1) /\
  Forall (fun a => a <> EmptyString /\ no_char " " a = true)
    ["/bin/ls"; "-l"].
Proof.
  split; [reflexivity|].
  apply (parseline_plain_arguments ("/bin/ls  -l &" +:+ nl)
           ["/bin/ls"; "-l"] 1); reflexivity.
Defined.

Lemma listjobs_lists_live_jobs_witness :
  listjobs (run reuse_ops initial_shell)
  = ([Printf "[1] (10) "; Printf "Running "; Printf "a";
      Printf "[2] (30) "; Printf "Foreground "; Printf "c"],
     Returns tt (run reuse_ops initial_shell)).
Proof.
  apply (listjobs_lists_live_jobs reuse_ops).
  repeat (constructor; [simpl; unfold known_state; auto|]). constructor.
Defined.

Lemma eval_background_job_witness :
  eval ls_background (Answers 0 77 0 true "" [] None) initial_shell
  = ([Printf ("[1] (77) " +:+ ls_background)],
     Returns (Back [])
       (Shell (<[0%nat := Job 77 1 BG ls_background]> (jobs initial_shell))
          2 0 0)).
Proof.
  destruct (eval_background_job ls_background "/bin/ls" []
              (Answers 0 77 0 true "" [] None) initial_shell 0%nat)
    as [_ Hnone];
    [reflexivity|reflexivity|simpl; lia|simpl; lia|simpl; lia|reflexivity
    | | |].
  - refine (proj1 (Forall_lookup (fun j => pid j <> 77) _) _).
    apply (bool_decide_unpack _). vm_compute. exact I.
  - exact (proj2 (proj1 (first_slot_lowest empty_slot (jobs initial_shell)
                           0%nat (Job 0 0 UNDEF "")) eq_refl)).
  - apply Hnone. reflexivity.
Defined.

Lemma eval_background_table_full_witness :
  eval ls_background (Answers 0 77 0 true "" [] None) full_table
  = ([Printf ("Tried to create too many jobs" +:+ nl);
      Printf ("[0] (77) " +:+ ls_background)],
     Returns (Back []) full_table) /\
  eval ls_background (Answers 0 77 0 true "" [] (Some [(77, WEXITED 0)]))
    full_table
  = ([Printf ("Tried to create too many jobs" +:+ nl);
      Printf ("[0] (77) " +:+ ls_background)],
     Undefined).
Proof.
  assert (forall i j, jobs full_table !! i = Some j -> pid j <> 0) as Hfull.
  { refine (proj1 (Forall_lookup (fun j => pid j <> 0) _) _).
    apply (bool_decide_unpack _). vm_compute. exact I. }
  split.
  - destruct (eval_background_table_full ls_background "/bin/ls" []
                (Answers 0 77 0 true "" [] None) full_table)
      as [_ Hnone];
      [reflexivity|reflexivity|simpl; lia|simpl; lia|simpl; lia|exact Hfull
      |reflexivity|].
    apply Hnone. reflexivity.
  - destruct (eval_background_table_full ls_background "/bin/ls" []
                (Answers 0 77 0 true "" [] (Some [(77, WEXITED 0)]))
                full_table)
      as [Hgen _];
      [reflexivity|reflexivity|simpl; lia|simpl; lia|simpl; lia|exact Hfull
      |reflexivity|].
    rewrite Hgen. reflexivity.
Defined.

Lemma eval_fork_fails_witness :
  eval ls_foreground (Answers 0 (-1) 0 true "Resource unavailable" [] None)
    one_job
  = ([Printf ("fork error" +:+ nl +:+ ": Resource unavailable" +:+ nl)],
     Exits 1).
Proof.
  apply (eval_fork_fails ls_foreground "/bin/ls" [] 0
           (Answers 0 (-1) 0 true "Resource unavailable" [] None) one_job);
    [reflexivity|reflexivity|simpl; lia|simpl; lia].
Defined.

Lemma eval_in_child_witness :
  eval ls_foreground (Answers 0 0 0 false "" [] None) one_job
  = ([Printf ("/bin/ls: Command not found" +:+ nl)], Exits 0).
Proof.
  apply (eval_in_child ls_foreground "/bin/ls" [] 0
           (Answers 0 0 0 false "" [] None) one_job);
    [reflexivity|reflexivity|simpl; lia|reflexivity|simpl; lia].
Defined.

